(** * Thali notification beacons, request admission and peer registry

    A shallow embedding of
      - thali/NextGeneration/thaliNotificationBeacons.js
        (createPublicKeyHash, generatePreambleAndBeacons, parseBeacons),
      - thali/NextGeneration/thaliManager.js
        (the two admission middlewares of the ThaliManager router and the
        mounting order of the router),
      - the peer registry of thaliMobile, of which only the test-suite is
        available, and which is therefore modelled from the specification.

    Buffers are lists of bytes, JavaScript [null] is [None], a thrown
    [Error] is the [Err] branch of [result], the objects of the node
    [crypto] module and of the [hkdf] package are the fields of the
    [Crypto] interface, where [ecdh.computeSecret] and the decipher may
    throw.  A handler of the router calls [next()], sends a response or
    throws. *)

From Stdlib Require Import ZArith List Lia Bool String Ascii.
From coqutil Require Import Byte.
From stdpp Require Import base option gmap strings.
Import ListNotations.

Local Open Scope Z_scope.

(* ===================================================================== *)
(** * Thrown errors                                                       *)
(* ===================================================================== *)

(** Every [throw new Error(msg)] of thaliNotificationBeacons.js, one
    constructor per throw site, and the error node's
    [ecdh.computeSecret] throws when the buffer it is handed is not a
    point of the curve: the four calls (lines 79, 91, 188 and 231) are
    outside any [try], so the error leaves the function. *)
Inductive error : Type :=
  | PublicKeysToNotifyNull      (* generatePreambleAndBeacons, line 48 *)
  | EcdhForLocalDeviceNull      (* generatePreambleAndBeacons, line 51 *)
  | SecondsUntilExpirationRange (* generatePreambleAndBeacons, line 55 *)
  | PreamblePublicKey           (* parseBeacons, line 160 *)
  | PreambleExpiration          (* parseBeacons, line 168 *)
  | ExpirationOutOfRange        (* parseBeacons, line 176 *)
  | MalformedBeaconKeyId        (* parseBeacons, line 184 *)
  | InvalidPublicKey            (* computeSecret, lines 79, 91, 188, 231 *)
  | LoopFuel.                   (* never produced, see [parseBeacons_fuel] *)

Definition message (e : error) : string :=
  match e with
  | PublicKeysToNotifyNull => "publicKeysToNotify cannot be null"
  | EcdhForLocalDeviceNull => "ecdhForLocalDevice cannot be null"
  | SecondsUntilExpirationRange => "secondsUntilExpiration out of range."
  | PreamblePublicKey => "Preamble public key must be from ECDH secp256k1"
  | PreambleExpiration => "Preamble expiration must be a 64 bit integer"
  | ExpirationOutOfRange => "Expiration out of range"
  | MalformedBeaconKeyId => "Malformed encrypted beacon key ID"
  (* the text is node's, not the source's *)
  | InvalidPublicKey => "Public key is not valid for specified curve"
  | LoopFuel => "loop bound exhausted"
  end%string.

Inductive result (A : Type) : Type :=
  | Ok (a : A)
  | Err (e : error).
Arguments Ok {A} a.
Arguments Err {A} e.

(** The spec's names for the parser errors: [MalformedPreamble] for the
    three preamble checks, [MalformedBeacon] for the block-length check. *)
Definition malformedPreamble (e : error) : bool :=
  match e with
  | PreamblePublicKey | PreambleExpiration | ExpirationOutOfRange => true
  | _ => false
  end.



(* ===================================================================== *)
(** * node Buffer                                                         *)
(* ===================================================================== *)

Module Buffer.

Definition t : Type := list Init.Byte.byte.

(** [buf.slice(start, end)]: both ends are clamped to the length. *)
Definition slice (buf : t) (start stop : nat) : t :=
  firstn (stop - start) (skipn start buf).

(** [Buffer.concat(list)]. *)
Definition concat (l : list t) : t := List.concat l.

(** two's-complement reading of a 32-bit pattern: JavaScript's [x | 0]. *)
Definition toInt32 (z : Z) : Z :=
  let u := z mod 2 ^ 32 in
  if u <? 2 ^ 31 then u else u - 2 ^ 32.

(** [x >>> 0]. *)
Definition toUint32 (z : Z) : Z := z mod 2 ^ 32.

(** The four bytes [buf.writeInt32BE(value, _)] stores, most significant
    first. *)
Definition writeInt32BE (value : Z) : t :=
  let u := toUint32 value in
  [ byte.of_Z (Z.shiftr u 24); byte.of_Z (Z.shiftr u 16);
    byte.of_Z (Z.shiftr u 8); byte.of_Z u ].

Definition byteAt (buf : t) (i : nat) : Z :=
  byte.unsigned (nth i buf Byte.x00).

(** [buf.readInt32BE(offset)] on a buffer that holds the four bytes (the
    source reads offsets 0 and 4 of an 8-byte buffer only). *)
Definition readInt32BE (buf : t) (offset : nat) : Z :=
  toInt32
    (Z.lor (Z.shiftl (byteAt buf offset) 24)
    (Z.lor (Z.shiftl (byteAt buf (offset + 1)) 16)
    (Z.lor (Z.shiftl (byteAt buf (offset + 2)) 8)
           (byteAt buf (offset + 3))))).

Definition ascii_of_byte (b : Init.Byte.byte) : ascii :=
  ascii_of_N (Byte.to_N b).

(** [buf.toString('binary')]: one character per byte. *)
Fixpoint toBinaryString (buf : t) : string :=
  match buf with
  | [] => EmptyString
  | b :: buf' => String (ascii_of_byte b) (toBinaryString buf')
  end.

(** [buf.toString()], which is also [String(buf)]: the bytes decoded as
    UTF-8.  A [string] holds the characters U+0000 to U+00FF, one per
    [ascii].  Those are encoded by one byte below 0x80, or by 0xC2 or
    0xC3 and one continuation byte; any other byte sequence decodes to
    a character above U+00FF (U+FFFD where it is not UTF-8), and the
    answer is then [None]: the text is equal to no [string]. *)
Fixpoint toString (buf : t) : option string :=
  match buf with
  | [] => Some EmptyString
  | b :: buf' =>
    let lead := byte.unsigned b in
    if lead <? 128 then
      option_map (String (ascii_of_byte b)) (toString buf')
    else if (lead =? 194) || (lead =? 195) then
      match buf' with
      | c :: buf'' =>
        let continuation := byte.unsigned c in
        if (128 <=? continuation) && (continuation <? 192) then
          option_map
            (String (ascii_of_byte
                       (byte.of_Z ((lead - 192) * 64
                                   + (continuation - 128)))))
            (toString buf'')
        else None
      | [] => None
      end
    else None
  end.

End Buffer.

(* ===================================================================== *)
(** * long.js                                                             *)
(* ===================================================================== *)

Module Long.

Record t : Type := mk { low : Z; high : Z }.

(** [Long.fromNumber(value)] for an integral [value] with
    [|value| < 2^63]: the two signed 32-bit halves of its
    two's-complement pattern.  (The source only reaches it with
    [0 <= value <= ONE_DAY].) *)
Definition fromNumber (value : Z) : t :=
  {| low := Buffer.toInt32 value;
     high := Buffer.toInt32 (value / 2 ^ 32) |}.

(** [Long.fromBits(lowBits, highBits)]. *)
Definition fromBits (lowBits highBits : Z) : t :=
  {| low := Buffer.toInt32 lowBits; high := Buffer.toInt32 highBits |}.

(** [toNumber()]: [this.high * TWO_PWR_32_DBL + (this.low >>> 0)]. *)
Definition toNumber (l : t) : Z :=
  high l * 2 ^ 32 + Buffer.toUint32 (low l).

End Long.

(* ===================================================================== *)
(** * thaliNotificationBeacons.js                                         *)
(* ===================================================================== *)

Module Beacons.

(** The objects of node's [crypto] module and of [./hkdf] the file uses.
    A key pair object ([crypto.createECDH(SECP256K1)] after
    [generateKeys]/[setPrivateKey]) is a value of [ECDH].  Two
    primitives can throw on the buffers the source hands them:
    [computeSecret], when the buffer is not the encoding of a point of
    the curve, and the decipher, when the padding of the decrypted data
    is wrong; [None] stands for the throw.  The decipher is guarded by a
    [try]/[catch] in the source (lines 202-211), [computeSecret] is
    not. *)
Class Crypto : Type := {
  ECDH : Type;
  (* ecdh.getPublicKey(), also the value of ecdh.generateKeys() *)
  getPublicKey : ECDH -> Buffer.t;
  (* ecdh.computeSecret(otherPublicKey) *)
  computeSecret : ECDH -> Buffer.t -> option Buffer.t;
  (* crypto.createHash(SHA256).update(data).digest() *)
  createHash : Buffer.t -> Buffer.t;
  (* crypto.createHmac(SHA256, key).update(data).digest() *)
  createHmac : Buffer.t -> Buffer.t -> Buffer.t;
  (* HKDF(SHA256, ikm, salt).derive(info, size) *)
  HKDF : Buffer.t -> Buffer.t -> Buffer.t -> nat -> Buffer.t;
  (* c = crypto.createCipheriv(GCM, key, iv);
     Buffer.concat([c.update(data), c.final()]) *)
  createCipheriv : Buffer.t -> Buffer.t -> Buffer.t -> Buffer.t;
  (* d = crypto.createDecipheriv(GCM, key, iv);
     Buffer.concat([d.update(data), d.final()]) *)
  createDecipheriv : Buffer.t -> Buffer.t -> Buffer.t -> option Buffer.t
}.

(** What the source relies on from the primitives: an uncompressed
    secp256k1 point takes 65 bytes, SHA-256 digests and HMACs take 32,
    'aes128' (CBC with PKCS#7 padding) turns 16 bytes into 32 and is
    undone by the decipher under the same key and IV, [computeSecret]
    accepts the public key of a key pair, and the Diffie-Hellman secret
    is the same from both ends. *)
Class CryptoLaws (C : Crypto) : Prop := {
  getPublicKey_length : forall k : ECDH,
    length (getPublicKey k) = 65%nat;
  computeSecret_getPublicKey : forall a b : ECDH,
    computeSecret a (getPublicKey b) <> None;
  computeSecret_comm : forall a b : ECDH,
    computeSecret a (getPublicKey b) = computeSecret b (getPublicKey a);
  createHash_length : forall data,
    length (createHash data) = 32%nat;
  createHmac_length : forall key data,
    length (createHmac key data) = 32%nat;
  createCipheriv_length : forall key iv data,
    length data = 16%nat -> length (createCipheriv key iv data) = 32%nat;
  createDecipheriv_createCipheriv : forall key iv data,
    createDecipheriv key iv (createCipheriv key iv data) = Some data
}.

(** [var ONE_DAY = 86400000;] *)
Definition ONE_DAY : Z := 86400000.

(** [bufferSize] of parseBeacons. *)
Definition bufferSize : nat := 48.

Section WithCrypto.
Context {C : Crypto}.

(** createPublicKeyHash *)
Definition createPublicKeyHash (ecdhPublicKey : Buffer.t) : Buffer.t :=
  Buffer.slice (createHash ecdhPublicKey) 0 16.

(** The 8-byte [expirationBuffer] of generatePreambleAndBeacons. *)
Definition expirationBufferOf (secondsUntilExpiration : Z) : Buffer.t :=
  let expirationLong := Long.fromNumber secondsUntilExpiration in
  Buffer.writeInt32BE (Long.high expirationLong)
    ++ Buffer.writeInt32BE (Long.low expirationLong).

(** The body of [publicKeysToNotify.forEach(function (pubKy) ...)]
    (lines 78-109): the 48-byte beacon pushed for [pubKy], or the error
    of the first [computeSecret] that throws. *)
Definition beaconFor (ecdhForLocalDevice ke : ECDH)
    (expirationBuffer unencryptedKeyId pubKy : Buffer.t)
    : result Buffer.t :=
  match computeSecret ecdhForLocalDevice pubKy with
  | None => Err InvalidPublicKey
  | Some sxy =>
    let hkxy := HKDF sxy expirationBuffer [] 32 in
    let beaconHmac :=
      Buffer.slice (createHmac hkxy expirationBuffer) 0 16 in
    match computeSecret ke pubKy with
    | None => Err InvalidPublicKey
    | Some sey =>
      let keyingMaterial := HKDF sey expirationBuffer [] 32 in
      let iv := Buffer.slice keyingMaterial 0 16 in
      let hkey := Buffer.slice keyingMaterial 16 32 in
      Ok (Buffer.concat
            [createCipheriv hkey iv unencryptedKeyId; beaconHmac])
    end
  end.

(** [array.forEach(body)] with a body that pushes one buffer per
    element: the buffers pushed, in order, unless the body throws, which
    ends the iteration. *)
Fixpoint forEach (body : Buffer.t -> result Buffer.t)
    (array : list Buffer.t) : result (list Buffer.t) :=
  match array with
  | [] => Ok []
  | x :: array' =>
    match body x with
    | Err e => Err e
    | Ok pushed =>
      match forEach body array' with
      | Err e => Err e
      | Ok rest => Ok (pushed :: rest)
      end
    end
  end.

(** generatePreambleAndBeacons.  [None] arguments are JavaScript
    [null]/[undefined]; [ke] is the ephemeral key pair the source
    draws with [crypto.createECDH(SECP256K1).generateKeys()], made an
    argument; the result [Ok None] is [return null]. *)
Definition generatePreambleAndBeacons
    (publicKeysToNotify : option (list Buffer.t))
    (ecdhForLocalDevice : option ECDH) (ke : ECDH)
    (secondsUntilExpiration : Z) : result (option Buffer.t) :=
  match publicKeysToNotify with
  | None => Err PublicKeysToNotifyNull
  | Some publicKeys =>
    match ecdhForLocalDevice with
    | None => Err EcdhForLocalDeviceNull
    | Some ecdh =>
      if (secondsUntilExpiration <? 0)
         || (secondsUntilExpiration >? ONE_DAY)
      then Err SecondsUntilExpirationRange
      else if (length publicKeys =? 0)%nat then Ok None
      else
        let pubKe := getPublicKey ke in
        let expirationBuffer :=
          expirationBufferOf secondsUntilExpiration in
        let preamble := Buffer.concat [pubKe; expirationBuffer] in
        let unencryptedKeyId :=
          createPublicKeyHash (getPublicKey ecdh) in
        match forEach (beaconFor ecdh ke expirationBuffer unencryptedKeyId)
                      publicKeys with
        | Err e => Err e
        | Ok beacons => Ok (Some (Buffer.concat (preamble :: beacons)))
        end
    end
  end.

(** The address book callback: [None] is a falsy answer. *)
Definition addressBookCallback : Type := Buffer.t -> option Buffer.t.

(** [Long.fromBits(expiration.readInt32BE(4),
                   expiration.readInt32BE(0)).toNumber()] *)
Definition expirationNumber (expiration : Buffer.t) : Z :=
  Long.toNumber
    (Long.fromBits (Buffer.readInt32BE expiration 4)
                   (Buffer.readInt32BE expiration 0)).

(** The [for (var i = 73; i < len; i += bufferSize)] loop of
    parseBeacons; [fuel] bounds the number of iterations. *)
Fixpoint beaconLoop (beaconStreamWithPreAmble : Buffer.t)
    (ecdhForLocalDevice : ECDH) (addressBook : addressBookCallback)
    (pubKe expiration : Buffer.t) (fuel i : nat)
    : result (option Buffer.t) :=
  match fuel with
  | O => Err LoopFuel
  | S fuel' =>
    if (i <? length beaconStreamWithPreAmble)%nat then
      let continue :=
        beaconLoop beaconStreamWithPreAmble ecdhForLocalDevice
          addressBook pubKe expiration fuel' (i + bufferSize)%nat in
      let encryptedBeaconKeyId :=
        Buffer.slice beaconStreamWithPreAmble i (i + bufferSize) in
      if negb (length encryptedBeaconKeyId =? bufferSize)%nat
      then Err MalformedBeaconKeyId
      else
        match computeSecret ecdhForLocalDevice pubKe with
        | None => Err InvalidPublicKey
        | Some sey =>
          let keyingMaterial := HKDF sey expiration [] 32 in
          let iv := Buffer.slice keyingMaterial 0 16 in
          let hkey := Buffer.slice keyingMaterial 16 32 in
          match createDecipheriv hkey iv
                  (Buffer.slice encryptedBeaconKeyId 0 32) with
          | None => continue
          | Some unencryptedKeyId =>
            match addressBook unencryptedKeyId with
            | None => continue
            | Some pubKx =>
              let beaconHmac :=
                Buffer.slice encryptedBeaconKeyId 32 48 in
              match computeSecret ecdhForLocalDevice pubKx with
              | None => Err InvalidPublicKey
              | Some sxy =>
                let hkxy := HKDF sxy expiration [] 32 in
                let otherBeaconHmac :=
                  Buffer.slice (createHmac hkxy expiration) 0 16 in
                if String.eqb (Buffer.toBinaryString beaconHmac)
                              (Buffer.toBinaryString otherBeaconHmac)
                then Ok (Some unencryptedKeyId)
                else continue
              end
            end
          end
        end
    else Ok None
  end.

(** parseBeacons.  The stream is [None] for [null]/[undefined]. *)
Definition parseBeacons (beaconStreamWithPreAmble : option Buffer.t)
    (ecdhForLocalDevice : ECDH) (addressBook : addressBookCallback)
    : result (option Buffer.t) :=
  match beaconStreamWithPreAmble with
  | None => Ok None
  | Some stream =>
    let len := length stream in
    let pubKe := Buffer.slice stream 0 65 in
    if negb (length pubKe =? 65)%nat then Err PreamblePublicKey
    else
      let expiration := Buffer.slice stream 65 (65 + 8) in
      if negb (length expiration =? 8)%nat then Err PreambleExpiration
      else
        let expirationLong := expirationNumber expiration in
        if (expirationLong <? 0) || (expirationLong >? ONE_DAY)
        then Err ExpirationOutOfRange
        else
          beaconLoop stream ecdhForLocalDevice addressBook
            pubKe expiration (S len) 73
  end.

End WithCrypto.

End Beacons.

(* ===================================================================== *)
(** * A small instance of the [Crypto] interface                          *)
(* ===================================================================== *)

(** A small, executable instance of [Beacons.Crypto] that satisfies
    [Beacons.CryptoLaws]: a Diffie-Hellman exchange in the additive group
    of integers modulo a prime, which rejects every buffer that is not
    the encoding of an element of the group, a 32-byte checksum for
    SHA-256, a byte-wise additive stream cipher with PKCS#7 padding for
    'aes128'.
    It offers no security and is used to run the definitions on concrete
    streams. *)
Module SmallCrypto.

Definition modulus : Z := 2147483647.
Definition generator : Z := 48271.

(** The public point of the private scalar [k]. *)
Definition point (k : Z) : Z := (k * generator) mod modulus.

(** The encoding of a point: 0x04, sixty zero bytes, and the point in
    four bytes. *)
Definition encode (p : Z) : Buffer.t :=
  Byte.x04 :: repeat Byte.x00 60 ++ Buffer.writeInt32BE p.

Definition getPublicKey (k : Z) : Buffer.t := encode (point k).

(** Whether a buffer is the encoding of a point. *)
Definition isPoint (buf : Buffer.t) : bool :=
  let p := Buffer.readInt32BE buf 61 in
  (0 <=? p) && (p <? modulus)
  && String.eqb (Buffer.toBinaryString buf)
                (Buffer.toBinaryString (encode p)).

Definition computeSecret (k : Z) (otherPublicKey : Buffer.t)
    : option Buffer.t :=
  if isPoint otherPublicKey then
    Some (Buffer.writeInt32BE
            ((k * Buffer.readInt32BE otherPublicKey 61) mod modulus))
  else None.

(** A polynomial checksum of the bytes. *)
Definition checksum (data : Buffer.t) : Z :=
  fold_left (fun acc b => (acc * 131 + byte.unsigned b + 1) mod modulus)
            data 7.

Definition expand (seed : Z) (size : nat) : Buffer.t :=
  map (fun j => byte.of_Z (seed * (Z.of_nat j + 3) + Z.of_nat j))
      (seq 0 size).

Definition createHash (data : Buffer.t) : Buffer.t :=
  expand (checksum data) 32.

Definition createHmac (key data : Buffer.t) : Buffer.t :=
  expand (checksum (key ++ Byte.x5c :: data)) 32.

Definition HKDF (ikm salt info : Buffer.t) (size : nat) : Buffer.t :=
  expand (checksum (salt ++ Byte.x36 :: ikm ++ Byte.x36 :: info)) size.

(** PKCS#7: between 1 and 16 bytes, each holding the pad length. *)
Definition padLength (n : nat) : nat := (16 - n mod 16)%nat.

Definition pad (data : Buffer.t) : Buffer.t :=
  let n := padLength (length data) in
  data ++ @repeat Init.Byte.byte (byte.of_Z (Z.of_nat n)) n.

Definition unpad (data : Buffer.t) : option Buffer.t :=
  match rev data with
  | [] => None
  | b :: _ =>
    let n := Z.to_nat (byte.unsigned b) in
    if ((1 <=? n) && (n <=? 16) && (n <=? length data))%nat
       && forallb (Byte.eqb b) (skipn (length data - n) data)
    then Some (firstn (length data - n) data)
    else None
  end.

Definition mask (key iv : Buffer.t) : Z := checksum (key ++ iv).

Definition createCipheriv (key iv data : Buffer.t) : Buffer.t :=
  map (fun b => byte.of_Z (byte.unsigned b + mask key iv)) (pad data).

Definition createDecipheriv (key iv data : Buffer.t) : option Buffer.t :=
  unpad (map (fun b => byte.of_Z (byte.unsigned b - mask key iv)) data).

#[export] Instance crypto : Beacons.Crypto := {|
  Beacons.ECDH := Z;
  Beacons.getPublicKey := getPublicKey;
  Beacons.computeSecret := computeSecret;
  Beacons.createHash := createHash;
  Beacons.createHmac := createHmac;
  Beacons.HKDF := HKDF;
  Beacons.createCipheriv := createCipheriv;
  Beacons.createDecipheriv := createDecipheriv
|}.

(** Alice, Bob, Carol, Dave and an ephemeral key pair. *)
Definition alice : @Beacons.ECDH crypto := 1001.
Definition bob : @Beacons.ECDH crypto := 2002.
Definition carol : @Beacons.ECDH crypto := 3003.
Definition dave : @Beacons.ECDH crypto := 3004.
Definition ephemeral : @Beacons.ECDH crypto := 4242.

(** An address book that knows exactly the listed public keys. *)
Fixpoint addressBookOf (known : list Buffer.t)
    (unencryptedKeyId : Buffer.t) : option Buffer.t :=
  match known with
  | [] => None
  | publicKey :: known' =>
    if String.eqb
         (Buffer.toBinaryString (Beacons.createPublicKeyHash publicKey))
         (Buffer.toBinaryString unencryptedKeyId)
    then Some publicKey
    else addressBookOf known' unencryptedKeyId
  end.

Definition emptyAddressBook : Beacons.addressBookCallback :=
  fun _ => None.

Definition streamOf (r : result (option Buffer.t)) : Buffer.t :=
  match r with Ok (Some s) => s | _ => [] end.

End SmallCrypto.

(* ===================================================================== *)
(** * thaliManager.js                                                     *)
(* ===================================================================== *)

Module Manager.

(** [req.connection.pskRole]: 'beacon', 'replication' or 'public'. *)
Inductive role : Type := beacon | replication | public.

(** What [getPskIdToSecret] hands out.  [secret === thaliConfig.BEACON_KEY]
    compares object identities, so the BEACON_KEY buffer is a value of
    its own; any other buffer, whatever its bytes, is a [pskSecret]. *)
Inductive secret : Type :=
  | BEACON_KEY
  | pskSecret (key : Buffer.t).

Inductive verb : Type := GET | HEAD | POST | PUT | DELETE | OPTIONS.

(** The fields of [req.connection] the router reads and writes; an
    absent [pskIdentity] or [pskRole] is [None]. *)
Record connection : Type := {
  authorized : bool;
  pskIdentity : option string;
  pskRole : option role
}.

(** A request: its connection, [req.method], and [req.path] split at
    the slashes. *)
Record request : Type := {
  conn : connection;
  method : verb;
  path : list string
}.

Definition withRole (req : request) (r : role) : request :=
  {| conn := {| authorized := authorized (conn req);
                pskIdentity := pskIdentity (conn req);
                pskRole := Some r |};
     method := method req;
     path := path req |}.

(** An exception a handler throws. *)
Inductive exception : Type :=
  | ReferenceError (identifier : string).

(** What a handler does with a request: call [next()], end the
    request by sending a response with a status, or throw, in which
    case no response has been sent and [statusCode] is the value the
    handler left in [res.statusCode].  All three carry the request as
    the handler leaves it, with the fields it may have written. *)
Inductive outcome : Type :=
  | next (req : request)
  | send (status : nat) (req : request)
  | throws (e : exception) (statusCode : nat) (req : request).

Section Router.
(** The accessors [this._getPskIdToSecret] and
    [this._getPskIdToPublicKey] obtained from the notification sender,
    and the constants of thaliConfig. *)
Variable getPskIdToSecret : option string -> option secret.
Variable getPskIdToPublicKey : option string -> option Buffer.t.
Variable LOCAL_SEQ_POINT_PREFIX : string.
Variable BASE_DB_PATH : string.
Variable dbName : string.

(** The first [this._router.all('*', ...)] handler (lines 44-83).
    On a connection that is not authorized the handler evaluates
    [res.status(401).send(msg401)] (line 79): [res.status(401)] stores
    the status code, then the argument [msg401] is evaluated.  The file
    is in strict mode and declares no [msg401], nor does anything it
    requires put one in scope, so the evaluation throws a
    ReferenceError and [send] is never called. *)
Definition assignRole (req : request) : outcome :=
  if authorized (conn req) then
    let secret := getPskIdToSecret (pskIdentity (conn req)) in
    match secret with
    | Some BEACON_KEY => next (withRole req beacon)
    | Some (pskSecret _) => next (withRole req replication)
    | None => next (withRole req public)
    end
  else throws (ReferenceError "msg401") 401 req.

(** [thaliId == value] for a string [thaliId]: [null]/[undefined]
    equal no string, a Buffer is converted with [String(buffer)], its
    UTF-8 decoding, first. *)
Definition looseEquals (thaliId : string) (value : option Buffer.t)
    : bool :=
  match value with
  | Some buffer =>
    match Buffer.toString buffer with
    | Some text => String.eqb thaliId text
    | None => false
    end
  | None => false
  end.

(** The callback handed to salti (lines 88-95). *)
Definition thaliIdCallback (thaliId : string) (req : request) : bool :=
  looseEquals thaliId (getPskIdToPublicKey (pskIdentity (conn req))).

(** One segment of a path pattern of the ACL: a literal, ['{:db}'],
    ['{:id}'] (also [':id']), or [prefix + '{:id}']. *)
Inductive segment : Type :=
  | lit (s : string)
  | db
  | id
  | prefixedId (prefix : string).

Record aclPath : Type := {
  pattern : list segment;
  verbs : list verb
}.

Record aclEntry : Type := {
  aclRole : role;
  paths : list aclPath
}.

(** [ThaliManager._acl] (lines 207-262). *)
Definition _acl : list aclEntry :=
  [ {| aclRole := replication;
       paths :=
         [ {| pattern := []; verbs := [GET] |};
           {| pattern := [db]; verbs := [GET] |};
           {| pattern := [db; lit "_all_docs"];
              verbs := [GET; HEAD; POST] |};
           {| pattern := [db; lit "_bulk_get"]; verbs := [POST] |};
           {| pattern := [db; lit "_changes"]; verbs := [GET; POST] |};
           {| pattern := [db; lit "_revs_diff"]; verbs := [POST] |};
           {| pattern := [db; id]; verbs := [GET] |};
           {| pattern := [db; id; lit "attachment"]; verbs := [GET] |};
           {| pattern := [db; lit "_local"; id];
              verbs := [GET; PUT; DELETE] |};
           {| pattern :=
                [db; lit "_local"; prefixedId LOCAL_SEQ_POINT_PREFIX];
              verbs := [GET; PUT; DELETE] |} ] |};
    {| aclRole := beacon;
       paths :=
         [ {| pattern := [lit "NotificationBeacons"];
              verbs := [GET] |} ] |} ].

Definition verb_eqb (a b : verb) : bool :=
  match a, b with
  | GET, GET | HEAD, HEAD | POST, POST | PUT, PUT | DELETE, DELETE
  | OPTIONS, OPTIONS => true
  | _, _ => false
  end.

Definition role_eqb (a b : role) : bool :=
  match a, b with
  | beacon, beacon | replication, replication | public, public => true
  | _, _ => false
  end.

(** Modelled from the spec: the pattern matcher of the salti package,
    which is not part of the sources.  A pattern matches a path
    segment by segment; the answer carries the [{:id}] captured by a
    prefixed segment, the one the spec restricts. *)
Fixpoint matchPattern (pat : list segment) (p : list string)
    : option (option string) :=
  match pat, p with
  | [], [] => Some None
  | lit s :: pat', x :: p' =>
    if String.eqb s x then matchPattern pat' p' else None
  | db :: pat', x :: p' =>
    if String.eqb dbName x then matchPattern pat' p' else None
  | id :: pat', _ :: p' => matchPattern pat' p'
  | prefixedId prefix :: pat', x :: p' =>
    if String.prefix prefix x then
      match matchPattern pat' p' with
      | Some _ =>
        Some (Some (substring (String.length prefix)
                              (String.length x - String.length prefix)
                              x))
      | None => None
      end
    else None
  | _, _ => None
  end.

(** Modelled from the spec: the paths of the table that match the
    request for its role and method. *)
Definition matches (req : request) (r : role)
    : list (option string) :=
  flat_map (fun e =>
    if role_eqb (aclRole e) r then
      flat_map (fun ap =>
        if existsb (verb_eqb (method req)) (verbs ap) then
          match matchPattern (pattern ap) (path req) with
          | Some m => [m]
          | None => []
          end
        else []) (paths e)
    else []) _acl.

(** Modelled from the spec: the id captured under the
    LOCAL_SEQ_POINT_PREFIX pattern, if one of the matches has one. *)
Fixpoint capturedId (ms : list (option string)) : option string :=
  match ms with
  | [] => None
  | Some thaliId :: _ => Some thaliId
  | None :: ms' => capturedId ms'
  end.

(** Modelled from the spec: the gate salti(dbName, acl, callback,
    options) builds, which is not part of the sources.  A request
    whose path falls under the LOCAL_SEQ_POINT_PREFIX pattern is
    admitted when the callback accepts its id and answered 403
    otherwise; any other request is admitted when the table lists its
    path and method for its role, and denied otherwise.  The [prefix]
    option is not modelled: paths are matched as the table writes
    them. *)
Definition aclGate (req : request) : outcome :=
  match pskRole (conn req) with
  | None => send 403 req
  | Some r =>
    let ms := matches req r in
    match capturedId ms with
    | Some thaliId =>
      if thaliIdCallback thaliId req then next req else send 403 req
    | None =>
      match ms with
      | [] => send 403 req
      | _ :: _ => next req
      end
    end
  end.

(** The layers of [this._router], in the order the constructor adds
    them. *)
Inductive stage : Type := RoleAssignment | AclGate | DatabaseRouter.

(** A layer of an express router: where it is mounted and its handler. *)
Record layer : Type := {
  name : stage;
  (* whether the layer is mounted on the path of the request *)
  mounted : request -> bool;
  handle : request -> outcome
}.

(** [router.all('*', h)]: the layer sees every request. *)
Definition all (n : stage) (h : request -> outcome) : layer :=
  {| name := n; mounted := fun _ => true; handle := h |}.

(** [router.use(mountPath, h)]: the layer sees the requests under
    [mountPath] only. *)
Definition use (n : stage) (mountPath : string)
    (h : request -> outcome) : layer :=
  {| name := n;
     mounted := fun req =>
       match path req with
       | x :: _ => String.eqb mountPath (String "/" x)
       | [] => false
       end;
     handle := h |}.

(** The router the ThaliManager constructor builds: lines 44, 85 and
    121.  [expressPouchDB] is the handler express-pouchdb returns. *)
Definition router (expressPouchDB : request -> outcome) : list layer :=
  [ all RoleAssignment assignRole;
    all AclGate aclGate;
    use DatabaseRouter BASE_DB_PATH expressPouchDB ].

(** How the run of a stack ends: a handler sent a response; a handler
    threw; or every layer passed the request on and the router calls
    the [next] it was given. *)
Inductive ending : Type :=
  | responded (status : nat)
  | failed (e : exception) (statusCode : nat)
  | passedOn.

(** Express runs the layers in order; a layer passes the request on
    with [next()], ends it, or throws.  Express catches what a handler
    throws and hands it to the error-handling middleware: the layers
    that follow, which take [(req, res, next)] and are no error
    handlers, are skipped.  The result lists the layers entered, each
    with the request as it entered, and how the run ends. *)
Fixpoint dispatch (stack : list layer) (req : request)
    : list (stage * request) * ending :=
  match stack with
  | [] => ([], passedOn)
  | l :: stack' =>
    if mounted l req then
      match handle l req with
      | next req' =>
        let '(visited, e) := dispatch stack' req' in
        ((name l, req) :: visited, e)
      | send status _ => ([(name l, req)], responded status)
      | throws e statusCode _ => ([(name l, req)], failed e statusCode)
      end
    else dispatch stack' req
  end.

End Router.

(** The tables of a notification sender that has published beacons for
    Bob: the fixed beacon identity, and one identity for Bob whose
    public key is [bobKey]. *)
Definition sampleSecrets (identity : option string) : option secret :=
  match identity with
  | Some i =>
    if String.eqb i "beacons" then Some BEACON_KEY
    else if String.eqb i "bob" then Some (pskSecret (repeat Byte.x2a 16))
    else None
  | None => None
  end.

Definition samplePublicKeys (bobKey : Buffer.t)
    (identity : option string) : option Buffer.t :=
  match identity with
  | Some i => if String.eqb i "bob" then Some bobKey else None
  | None => None
  end.

(** A request on an authorized connection of identity "bob". *)
Definition requestOfBob (m : verb) (p : list string) : request :=
  {| conn := {| authorized := true;
                pskIdentity := Some "bob"%string;
                pskRole := None |};
     method := m;
     path := p |}.

(** The router with the sample tables, "thali_" for
    LOCAL_SEQ_POINT_PREFIX, "/db" for BASE_DB_PATH, "db" for the name of
    the database, and a database router that answers 200. *)
Definition sampleRouter (bobKey : Buffer.t) : list layer :=
  router sampleSecrets (samplePublicKeys bobKey) "thali_" "/db" "db"
    (fun req => send 200 req).

Definition sampleGate (bobKey : Buffer.t) (req : request) : outcome :=
  aclGate (samplePublicKeys bobKey) "thali_" "db" req.

End Manager.

(* ===================================================================== *)
(** * The peer registry of thaliMobile                                    *)
(* ===================================================================== *)

(** thaliMobile.js is not among the sources; its test-suite is.  The
    registry below follows section 4.5 of the specification.  Time is
    explicit: every observation carries the instant at which it arrives,
    and the firing of an unavailability timer is an input of its own. *)
Module Registry.

(** Modelled from the spec: ConnectionType of section 3, declared by
    thaliMobileNativeWrapper, which is not among the sources. *)
Inductive connectionType : Type :=
  | TCP_NATIVE
  | BLUETOOTH
  | MULTI_PEER_CONNECTIVITY.

#[export] Instance connectionType_eq_dec : EqDecision connectionType.
Proof. solve_decision. Defined.

#[export] Instance connectionType_countable : Countable connectionType.
Proof.
  refine (inj_countable'
    (fun c => match c with
              | TCP_NATIVE => 0%nat
              | BLUETOOTH => 1%nat
              | MULTI_PEER_CONNECTIVITY => 2%nat
              end)
    (fun n => match n with
              | 0%nat => TCP_NATIVE
              | 1%nat => BLUETOOTH
              | _ => MULTI_PEER_CONNECTIVITY
              end) _).
  intros []; reflexivity.
Defined.

(** Modelled from the spec: RawPeerEvent of section 3, the payload of
    the events thaliMobile receives from the two transports. *)
Record RawPeerEvent : Type := {
  peerId : string;
  generation : N;
  available : bool;
  connType : connectionType;
  hostAddress : option string;
  portNumber : option N
}.

(** Modelled from the spec: PeerRegistryEntry of section 3.  The
    unavailability timer is represented by the instant of the last
    observation that reset it. *)
Record PeerRegistryEntry : Type := {
  entryGeneration : N;
  entryHostAddress : option string;
  entryPortNumber : option N;
  lastObserved : N
}.

(** Modelled from the spec: PeerStatus of section 3, the payload of
    peerAvailabilityChanged. *)
Record PeerStatus : Type := {
  statusPeerId : string;
  statusConnectionType : connectionType;
  statusGeneration : N;
  statusAvailable : bool;
  newAddressPort : option bool
}.

(** Modelled from the spec: the tunables of section 6 the registry
    reads. *)
Record config : Type := {
  UPDATE_WINDOWS_FOREGROUND_MS : N;
  TCP_PEER_UNAVAILABILITY_THRESHOLD : N;
  NON_TCP_PEER_UNAVAILABILITY_THRESHOLD : N
}.

(** Modelled from the spec: the registry of thaliMobile, "keyed by
    (connectionType, peerId)". *)
Abbreviation key := (connectionType * string)%type.
Abbreviation registry := (gmap key PeerRegistryEntry).

(** Modelled from the spec: the key under which thaliMobile caches the
    peer of an event. *)
Definition keyOf (ev : RawPeerEvent) : key := (connType ev, peerId ev).

(** Equality of two optional fields, both absent or both equal. *)
Definition option_eqb {A} (eqb : A -> A -> bool) (x y : option A) : bool :=
  match x, y with
  | Some a, Some b => eqb a b
  | None, None => true
  | _, _ => false
  end.

(** Modelled from the spec: the comparison behind newAddressPort in
    thaliMobile, "(hostAddress, portNumber) differs from the prior cached
    entry". *)
Definition sameAddressPort (e : PeerRegistryEntry) (ev : RawPeerEvent)
    : bool :=
  option_eqb String.eqb (entryHostAddress e) (hostAddress ev)
  && option_eqb N.eqb (entryPortNumber e) (portNumber ev).

(** Modelled from the spec: the debounce test of thaliMobile,
    "identical (peerId, connectionType, hostAddress, portNumber,
    generation) to the cached entry"; the entry is found under the
    event's peerId and connectionType. *)
Definition sameTuple (e : PeerRegistryEntry) (ev : RawPeerEvent) : bool :=
  sameAddressPort e ev && N.eqb (entryGeneration e) (generation ev).

(** Modelled from the spec: the entry thaliMobile caches for an
    accepted observation, its timer reset at [now]. *)
Definition entryOf (now : N) (ev : RawPeerEvent) : PeerRegistryEntry :=
  {| entryGeneration := generation ev;
     entryHostAddress := hostAddress ev;
     entryPortNumber := portNumber ev;
     lastObserved := now |}.

(** Modelled from the spec: the timer reset of thaliMobile on an
    ignored identical observation ("ignore, reset timer"). *)
Definition touch (now : N) (e : PeerRegistryEntry) : PeerRegistryEntry :=
  {| entryGeneration := entryGeneration e;
     entryHostAddress := entryHostAddress e;
     entryPortNumber := entryPortNumber e;
     lastObserved := now |}.

(** Modelled from the spec: the PeerStatus thaliMobile emits for an
    accepted observation. *)
Definition availableStatus (ev : RawPeerEvent) (changed : bool)
    : PeerStatus :=
  {| statusPeerId := peerId ev;
     statusConnectionType := connType ev;
     statusGeneration := generation ev;
     statusAvailable := true;
     newAddressPort := Some changed |}.

(** Modelled from the spec: the PeerStatus thaliMobile emits when an
    entry is removed; newAddressPort is null. *)
Definition unavailableStatus (k : key) (e : PeerRegistryEntry)
    : PeerStatus :=
  {| statusPeerId := snd k;
     statusConnectionType := fst k;
     statusGeneration := entryGeneration e;
     statusAvailable := false;
     newAddressPort := None |}.

(** Modelled from the spec: the generation rules thaliMobile applies
    (section 4.5) to an available observation whose key is cached.
    - identical tuple: ignored, except that on BLUETOOTH it is accepted
      once UPDATE_WINDOWS_FOREGROUND_MS have passed without an
      observation;
    - BLUETOOTH: any received generation is accepted;
    - MPCF: only a strictly greater generation is accepted;
    - TCP_NATIVE: not gated by the generation. *)
Definition accepted (cfg : config) (now : N) (e : PeerRegistryEntry)
    (ev : RawPeerEvent) : bool :=
  if sameTuple e ev then
    match connType ev with
    | BLUETOOTH =>
      (lastObserved e + UPDATE_WINDOWS_FOREGROUND_MS cfg <=? now)%N
    | _ => false
    end
  else
    match connType ev with
    | BLUETOOTH => true
    | MULTI_PEER_CONNECTIVITY =>
      (entryGeneration e <? generation ev)%N
    | TCP_NATIVE => true
    end.

(** Modelled from the spec: the handler of thaliMobile for one raw peer
    event, which arrives at [now].  The answer is the registry afterwards
    and the peerAvailabilityChanged events emitted.
    - unavailable: a cached entry is removed with an unavailability
      event, an unknown peer is ignored;
    - available and unknown: cached, emitted with newAddressPort false;
    - available and cached: an accepted observation replaces the entry
      and is emitted with newAddressPort telling whether host or port
      changed; an identical one is ignored and resets the timer; any
      other is ignored. *)
Definition observe (cfg : config) (now : N) (ev : RawPeerEvent)
    (reg : registry) : registry * list PeerStatus :=
  let k := keyOf ev in
  match reg !! k with
  | None =>
    if available ev
    then (<[k := entryOf now ev]> reg, [availableStatus ev false])
    else (reg, [])
  | Some e =>
    if available ev then
      if accepted cfg now e ev
      then (<[k := entryOf now ev]> reg,
            [availableStatus ev (negb (sameAddressPort e ev))])
      else if sameTuple e ev
      then (<[k := touch now e]> reg, [])
      else (reg, [])
    else (delete k reg, [unavailableStatus k e])
  end.

(** Modelled from the spec: the timer callback of thaliMobile; the
    unavailability timer of the entry under [k] fires, the entry is
    removed and an unavailability event emitted. *)
Definition timerFired (k : key) (reg : registry)
    : registry * list PeerStatus :=
  match reg !! k with
  | None => (reg, [])
  | Some e => (delete k reg, [unavailableStatus k e])
  end.

(** Modelled from the spec: what reaches the registry of thaliMobile, a
    raw peer event with its arrival time or the firing of a timer
    ("timer callbacks observe the Registry as if they were incoming
    events"). *)
Inductive input : Type :=
  | raw (now : N) (ev : RawPeerEvent)
  | timer (k : key).

(** Modelled from the spec: the registry of thaliMobile on one input. *)
Definition step (cfg : config) (i : input) (reg : registry)
    : registry * list PeerStatus :=
  match i with
  | raw now ev => observe cfg now ev reg
  | timer k => timerFired k reg
  end.

(** Modelled from the spec: the registry of thaliMobile on a sequence of
    inputs; the events emitted while they are folded in, in order. *)
Fixpoint run (cfg : config) (inputs : list input) (reg : registry)
    : registry * list PeerStatus :=
  match inputs with
  | [] => (reg, [])
  | i :: inputs' =>
    let '(reg1, out1) := step cfg i reg in
    let '(reg2, out2) := run cfg inputs' reg1 in
    (reg2, out1 ++ out2)
  end.

(** The native peer of the test-suite ([generateLowerLevelPeers]) on
    Android, and the tunables used with it. *)
Definition nativePeer : RawPeerEvent :=
  {| peerId := "3f2c1a";
     generation := 0;
     available := true;
     connType := BLUETOOTH;
     hostAddress := None;
     portNumber := Some 12345%N |}.

Definition testConfig : config :=
  {| UPDATE_WINDOWS_FOREGROUND_MS := 100;
     TCP_PEER_UNAVAILABILITY_THRESHOLD := 15000;
     NON_TCP_PEER_UNAVAILABILITY_THRESHOLD := 30000 |}.

End Registry.

(* ===================================================================== *)
(** * The beacon matcher in the words of the specification                *)
(* ===================================================================== *)

(** Section 4.1 of the specification describes the parser beacon by
    beacon.  These definitions follow its words; the theorems below
    compare them with [Beacons.parseBeacons]. *)
Module BeaconSpec.

Section WithCrypto.
Context {C : Beacons.Crypto}.
Variable local : Beacons.ECDH.
Variable addressBook : Beacons.addressBookCallback.
(** The two fields of the preamble. *)
Variable pubKe expiration : Buffer.t.

(** "Sey = ECDH(local.private, pubKe); derive IV, HKey; attempt
    decrypt of the first 32 bytes."  There is no plain text when the
    ECDH rejects [pubKe] or when the decipher fails. *)
Definition decrypt (beacon : Buffer.t) : option Buffer.t :=
  match Beacons.computeSecret local pubKe with
  | None => None
  | Some sey =>
    let km := Beacons.HKDF sey expiration [] 32 in
    Beacons.createDecipheriv (Buffer.slice km 16 32) (Buffer.slice km 0 16)
      (Buffer.slice beacon 0 32)
  end.

(** "Compute expected HMAC with Sxy = ECDH(local.private, PubKx) and
    HKxy."  There is none when the ECDH rejects [pubKx]. *)
Definition expectedHmac (pubKx : Buffer.t) : option Buffer.t :=
  match Beacons.computeSecret local pubKx with
  | None => None
  | Some sxy =>
    let hkxy := Beacons.HKDF sxy expiration [] 32 in
    Some (Buffer.slice (Beacons.createHmac hkxy expiration) 0 16)
  end.

(** The outcome of one beacon.  The specification names the last four;
    [keyRejected] is the case it leaves out: the ECDH rejects the
    public key of the preamble, or the one the address book returned. *)
Inductive verdict : Type :=
  | keyRejected
  | decryptFailed
  | unrecognized (plain : Buffer.t)
  | hmacMismatch (plain : Buffer.t)
  | matched (plain : Buffer.t).

Definition judge (beacon : Buffer.t) : verdict :=
  match Beacons.computeSecret local pubKe with
  | None => keyRejected
  | Some _ =>
    match decrypt beacon with
    | None => decryptFailed
    | Some plain =>
      match addressBook plain with
      | None => unrecognized plain
      | Some pubKx =>
        match expectedHmac pubKx with
        | None => keyRejected
        | Some hmac =>
          if String.eqb
               (Buffer.toBinaryString (Buffer.slice beacon 32 48))
               (Buffer.toBinaryString hmac)
          then matched plain
          else hmacMismatch plain
        end
      end
    end
  end.

(** "The first matching beacon wins": the key id of the first beacon,
    in stream order, that is judged [matched]; the beacons before it
    are passed over.  A beacon judged [keyRejected] ends the scan with
    the error of the ECDH. *)
Fixpoint firstMatch (beacons : list Buffer.t) : result (option Buffer.t) :=
  match beacons with
  | [] => Ok None
  | beacon :: beacons' =>
    match judge beacon with
    | matched plain => Ok (Some plain)
    | keyRejected => Err InvalidPublicKey
    | _ => firstMatch beacons'
    end
  end.

(** The three verdicts after which the parser moves to the next
    beacon. *)
Definition isSkipped (v : verdict) : bool :=
  match v with
  | decryptFailed | unrecognized _ | hmacMismatch _ => true
  | _ => false
  end.

End WithCrypto.

(** A preamble is 73 bytes whose expiration passes the range check. *)
Definition pubKeOf (preamble : Buffer.t) : Buffer.t :=
  Buffer.slice preamble 0 65.

Definition expirationOf (preamble : Buffer.t) : Buffer.t :=
  Buffer.slice preamble 65 73.

Definition validPreamble (preamble : Buffer.t) : bool :=
  (length preamble =? 73)%nat
  && (0 <=? Beacons.expirationNumber (expirationOf preamble))
  && (Beacons.expirationNumber (expirationOf preamble) <=? Beacons.ONE_DAY).

(** The beacons are 48 bytes each. *)
Definition wellSized (beacons : list Buffer.t) : bool :=
  forallb (fun beacon => (length beacon =? Beacons.bufferSize)%nat) beacons.

End BeaconSpec.

(* ===================================================================== *)
(** * ThaliManager.prototype.start and stop                               *)
(* ===================================================================== *)

(** The two promise chains of thaliManager.js (lines 140-205).  The
    collaborators (ThaliMobile, the pull-replication and the
    send-notification objects) are a state [W] with a function that tells
    what each call does to it and how the call ends. *)
Module Lifecycle.

(** The calls start and stop make on the collaborators. *)
Inductive call : Type :=
  | pullStart (arrayOfRemoteKeys : option (list Buffer.t))
  | mobileStart
  | startListeningForAdvertisements
  | startUpdateAdvertisingAndListening
  | sendStart (arrayOfRemoteKeys : option (list Buffer.t))
  | sendStop
  | stopAdvertisingAndListening
  | stopListeningForAdvertisements
  | mobileStop
  | pullStop.

(** How a call ends: it throws, or it returns a value that is not a
    rejected promise (a resolved promise or a plain value), or it returns
    a promise that rejects. *)
Inductive reply : Type :=
  | throws
  | returnsResolved
  | returnsRejected.

(** How start and stop end for their caller: an exception thrown before
    a promise is returned, or the returned promise resolved or rejected. *)
Inductive settled : Type :=
  | thrown
  | resolved
  | rejected.

Section WithCollaborators.
Variable W : Type.
Variable perform : call -> W -> W * reply.

(** The collaborators and the calls made so far with their replies. *)
Definition state : Type := (W * list (call * reply))%type.

Definition invoke (c : call) (st : state) : state * reply :=
  let '(w, log) := st in
  let '(w', r) := perform c w in
  ((w', log ++ [(c, r)]), r).

(** [.then(function () { return c(); })] followed by the rest of the
    chain: the chain goes on when [c] returns and its promise resolves, a
    throw or a rejection rejects the chain and skips the rest. *)
Definition thenReturn (c : call) (rest : state -> state * settled)
    (st : state) : state * settled :=
  let '(st', r) := invoke c st in
  match r with
  | returnsResolved => rest st'
  | throws | returnsRejected => (st', rejected)
  end.

(** [.then(function () { c(); })] at the end of a chain: the value of [c]
    is dropped, only a throw rejects the chain. *)
Definition thenCall (c : call) (st : state) : state * settled :=
  let '(st', r) := invoke c st in
  match r with
  | throws => (st', rejected)
  | returnsResolved | returnsRejected => (st', resolved)
  end.

(** A statement [c();] of the function body: a throw leaves the
    function, the value returned is dropped. *)
Definition statement (c : call) (rest : state -> state * settled)
    (st : state) : state * settled :=
  let '(st', r) := invoke c st in
  match r with
  | throws => (st', thrown)
  | returnsResolved | returnsRejected => rest st'
  end.

(** [return c().then(...)...]: a throw leaves the function, a rejected
    promise skips every [then] callback. *)
Definition returnChain (c : call) (rest : state -> state * settled)
    (st : state) : state * settled :=
  let '(st', r) := invoke c st in
  match r with
  | throws => (st', thrown)
  | returnsRejected => (st', rejected)
  | returnsResolved => rest st'
  end.

(** ThaliManager.prototype.start (lines 140-177). *)
Definition start (arrayOfRemoteKeys : option (list Buffer.t))
    : state -> state * settled :=
  statement (pullStart arrayOfRemoteKeys)
    (returnChain mobileStart
      (thenReturn startListeningForAdvertisements
        (thenReturn startUpdateAdvertisingAndListening
          (thenCall (sendStart arrayOfRemoteKeys))))).

(** ThaliManager.prototype.stop (lines 184-205). *)
Definition stop : state -> state * settled :=
  statement sendStop
    (returnChain stopAdvertisingAndListening
      (thenReturn stopListeningForAdvertisements
        (thenReturn mobileStop
          (thenCall pullStop)))).

(** The calls start and stop make from a fresh log, with the reply to
    each, and how start and stop end. *)
Definition startLog (keys : option (list Buffer.t)) (w : W)
    : list (call * reply) :=
  snd (fst (start keys (w, []))).

Definition startEnd (keys : option (list Buffer.t)) (w : W) : settled :=
  snd (start keys (w, [])).

Definition stopLog (w : W) : list (call * reply) :=
  snd (fst (stop (w, []))).

Definition stopEnd (w : W) : settled :=
  snd (stop (w, [])).

End WithCollaborators.

(** The call of stop that undoes a call of start. *)
Definition counterpart (c : call) : call :=
  match c with
  | pullStart _ => pullStop
  | mobileStart => mobileStop
  | startListeningForAdvertisements => stopListeningForAdvertisements
  | startUpdateAdvertisingAndListening => stopAdvertisingAndListening
  | sendStart _ => sendStop
  | other => other
  end.

(** Collaborators without state whose every call succeeds. *)
Definition allSucceed (c : call) (w : unit) : unit * reply :=
  (w, returnsResolved).

(** Collaborators whose pull-replication and send-notification objects
    return rejected promises while ThaliMobile succeeds. *)
Definition replicationRejects (c : call) (w : unit) : unit * reply :=
  match c with
  | pullStart _ | sendStart _ | sendStop | pullStop => (w, returnsRejected)
  | _ => (w, returnsResolved)
  end.

End Lifecycle.

(* ===================================================================== *)
(** * Helpers of the thaliMobile test-suite                               *)
(* ===================================================================== *)

Module MobileTests.

(** [isTestPeer] of the test "peer with the same id, conn type, host,
    port and generation is ignored" (lines 704-709):
    [id !== wifiPeer.peerIdentifier || id !== nativePeer.peerIdentifier]. *)
Definition isTestPeerOfDuplicates (wifiPeerId nativePeerId : string)
    (peerIdentifier : string) : bool :=
  negb (String.eqb peerIdentifier wifiPeerId)
  || negb (String.eqb peerIdentifier nativePeerId).

(** [isTestPeer] of the networkChanged tests (lines 990-995, 1076-1081,
    1169-1174):
    [id === nativePeer.peerIdentifier || id === wifiPeer.peerIdentifier]. *)
Definition isTestPeerOfNetworkChanged (wifiPeerId nativePeerId : string)
    (peerIdentifier : string) : bool :=
  String.eqb peerIdentifier nativePeerId
  || String.eqb peerIdentifier wifiPeerId.

End MobileTests.

(* ===================================================================== *)
(** * Buffers and 64-bit expirations                                      *)
(* ===================================================================== *)

Lemma slice_length (buf : Buffer.t) (start stop : nat) :
  length (Buffer.slice buf start stop)
  = Nat.min (stop - start) (length buf - start).
Proof.
  unfold Buffer.slice. rewrite length_take, length_drop. reflexivity.
Qed.

Lemma slice_app_l (a b : Buffer.t) (n : nat) :
  length a = n -> Buffer.slice (a ++ b) 0 n = a.
Proof.
  intros <-. unfold Buffer.slice.
  rewrite drop_0, Nat.sub_0_r. apply take_app_length.
Qed.

Lemma slice_shift (a b : Buffer.t) (start stop : nat) :
  Buffer.slice (a ++ b) (length a + start) (length a + stop)
  = Buffer.slice b start stop.
Proof.
  unfold Buffer.slice. rewrite drop_app_add.
  replace (length a + stop - (length a + start))%nat
    with (stop - start)%nat by lia.
  reflexivity.
Qed.

Lemma slice_app_r (a b : Buffer.t) (start stop : nat) :
  length a = start ->
  Buffer.slice (a ++ b) start stop = Buffer.slice b 0 (stop - start).
Proof.
  intros <-.
  rewrite <- (slice_shift a b 0 (stop - length a)).
  unfold Buffer.slice. f_equal; [lia | f_equal; lia].
Qed.

Lemma toInt32_small (z : Z) : - 2 ^ 31 <= z < 2 ^ 31 -> Buffer.toInt32 z = z.
Proof.
  intros Hz. unfold Buffer.toInt32. cbv zeta.
  destruct (Z_lt_le_dec z 0) as [Hneg | Hpos].
  - replace (z mod 2 ^ 32) with (z + 2 ^ 32).
    + destruct (Z.ltb_spec (z + 2 ^ 32) (2 ^ 31)); lia.
    + apply Z.mod_unique with (q := -1); lia.
  - rewrite Z.mod_small by lia.
    destruct (Z.ltb_spec z (2 ^ 31)); lia.
Qed.

Lemma toInt32_range (z : Z) : - 2 ^ 31 <= Buffer.toInt32 z < 2 ^ 31.
Proof.
  unfold Buffer.toInt32. cbv zeta.
  pose proof (Z.mod_pos_bound z (2 ^ 32) eq_refl).
  destruct (Z.ltb_spec (z mod 2 ^ 32) (2 ^ 31)); lia.
Qed.

Lemma toInt32_mod (z : Z) : Buffer.toInt32 (z mod 2 ^ 32) = Buffer.toInt32 z.
Proof. unfold Buffer.toInt32. rewrite Z.mod_mod by lia. reflexivity. Qed.

Lemma toUint32_toInt32 (z : Z) :
  Buffer.toUint32 (Buffer.toInt32 z) = z mod 2 ^ 32.
Proof.
  unfold Buffer.toUint32, Buffer.toInt32. cbv zeta.
  destruct (Z.ltb_spec (z mod 2 ^ 32) (2 ^ 31)).
  - apply Z.mod_mod. lia.
  - rewrite <- (Z.mod_add _ 1) by lia.
    replace (z mod 2 ^ 32 - 2 ^ 32 + 1 * 2 ^ 32) with (z mod 2 ^ 32) by lia.
    apply Z.mod_mod. lia.
Qed.

(** The four bytes of a 32-bit pattern put together again. *)
Lemma bytes_join (u : Z) :
  0 <= u < 2 ^ 32 ->
  Z.lor (Z.shiftl (Z.shiftr u 24 mod 2 ^ 8) 24)
    (Z.lor (Z.shiftl (Z.shiftr u 16 mod 2 ^ 8) 16)
      (Z.lor (Z.shiftl (Z.shiftr u 8 mod 2 ^ 8) 8) (u mod 2 ^ 8))) = u.
Proof.
  intros Hu. apply Z.bits_inj'. intros n Hn.
  rewrite !Z.lor_spec.
  assert (Hhigh : 32 <= n -> Z.testbit u n = false).
  { intros H32. apply Z.bits_above_log2; [lia |].
    destruct (Z.eq_dec u 0) as [-> | Hne]; [cbn; lia |].
    apply Z.log2_lt_pow2; [lia |].
    apply Z.lt_le_trans with (2 ^ 32); [lia |].
    apply Z.pow_le_mono_r; lia. }
  destruct (Z_lt_le_dec n 8) as [H8 | H8].
  { rewrite !Z.shiftl_spec_low by lia.
    rewrite Z.mod_pow2_bits_low by lia. reflexivity. }
  rewrite (Z.mod_pow2_bits_high u 8 n) by lia. rewrite orb_false_r.
  destruct (Z_lt_le_dec n 16) as [H16 | H16].
  { rewrite !(Z.shiftl_spec_low _ 16), !(Z.shiftl_spec_low _ 24) by lia.
    rewrite Z.shiftl_spec by lia.
    rewrite Z.mod_pow2_bits_low by lia.
    rewrite Z.shiftr_spec by lia. cbn [orb]. f_equal. lia. }
  rewrite (Z.shiftl_spec _ 8) by lia.
  rewrite (Z.mod_pow2_bits_high _ 8 (n - 8)) by lia. rewrite orb_false_r.
  destruct (Z_lt_le_dec n 24) as [H24 | H24].
  { rewrite !(Z.shiftl_spec_low _ 24) by lia.
    rewrite Z.shiftl_spec by lia.
    rewrite Z.mod_pow2_bits_low by lia.
    rewrite Z.shiftr_spec by lia. cbn [orb]. f_equal. lia. }
  rewrite (Z.shiftl_spec _ 16) by lia.
  rewrite (Z.mod_pow2_bits_high _ 8 (n - 16)) by lia. rewrite orb_false_r.
  rewrite Z.shiftl_spec by lia.
  destruct (Z_lt_le_dec n 32) as [H32 | H32].
  { rewrite Z.mod_pow2_bits_low by lia.
    rewrite Z.shiftr_spec by lia. f_equal. lia. }
  rewrite Z.mod_pow2_bits_high by lia. symmetry. apply Hhigh. lia.
Qed.

Lemma byteAt_app_r (a b : Buffer.t) (i : nat) :
  Buffer.byteAt (a ++ b) (length a + i) = Buffer.byteAt b i.
Proof.
  unfold Buffer.byteAt. rewrite app_nth2 by lia.
  f_equal. f_equal. lia.
Qed.

(** Reading back the four bytes [writeInt32BE] stored. *)
Lemma readInt32BE_writeInt32BE (pre post : Buffer.t) (value : Z) :
  Buffer.readInt32BE (pre ++ Buffer.writeInt32BE value ++ post) (length pre)
  = Buffer.toInt32 value.
Proof.
  unfold Buffer.readInt32BE.
  rewrite <- (Nat.add_0_r (length pre)) at 1.
  rewrite !byteAt_app_r.
  unfold Buffer.writeInt32BE, Buffer.byteAt. cbn [nth app Nat.add].
  rewrite !byte.unsigned_of_Z. unfold byte.wrap.
  rewrite bytes_join.
  - apply toInt32_mod.
  - apply Z.mod_pos_bound. lia.
Qed.

Lemma writeInt32BE_length (value : Z) :
  length (Buffer.writeInt32BE value) = 4%nat.
Proof. reflexivity. Qed.

Lemma ascii_of_byte_inj (a b : Init.Byte.byte) :
  Buffer.ascii_of_byte a = Buffer.ascii_of_byte b -> a = b.
Proof.
  unfold Buffer.ascii_of_byte. intros H.
  apply byte.to_N_inj.
  rewrite <- (N_ascii_embedding (Byte.to_N a)),
          <- (N_ascii_embedding (Byte.to_N b)).
  - rewrite H. reflexivity.
  - pose proof (Byte.to_N_bounded b). lia.
  - pose proof (Byte.to_N_bounded a). lia.
Qed.

Lemma toBinaryString_inj (a b : Buffer.t) :
  Buffer.toBinaryString a = Buffer.toBinaryString b -> a = b.
Proof.
  revert b. induction a as [| x a IH]; intros [| y b] H; cbn in H;
    try discriminate; [reflexivity |].
  injection H as Hxy Hab.
  f_equal; [apply ascii_of_byte_inj, Hxy | apply IH, Hab].
Qed.

(** The comparison the source makes on the two HMACs is equality of the
    buffers. *)
Lemma binary_eqb_iff (a b : Buffer.t) :
  String.eqb (Buffer.toBinaryString a) (Buffer.toBinaryString b) = true
  <-> a = b.
Proof.
  rewrite String.eqb_eq. split; [apply toBinaryString_inj | congruence].
Qed.

Lemma expirationBufferOf_length (t : Z) :
  length (Beacons.expirationBufferOf t) = 8%nat.
Proof. reflexivity. Qed.

(** The 64-bit big-endian expiration read back as the number written. *)
Lemma expirationNumber_expirationBufferOf (t : Z) :
  - 2 ^ 63 <= t < 2 ^ 63 ->
  Beacons.expirationNumber (Beacons.expirationBufferOf t) = t.
Proof.
  intros Ht.
  unfold Beacons.expirationNumber, Beacons.expirationBufferOf.
  cbv zeta. unfold Long.fromNumber. cbn [Long.low Long.high].
  set (hi := Buffer.toInt32 (t / 2 ^ 32)).
  set (lo := Buffer.toInt32 t).
  assert (Hlo : Buffer.readInt32BE
                  (Buffer.writeInt32BE hi ++ Buffer.writeInt32BE lo) 4
                = Buffer.toInt32 lo).
  { rewrite <- (app_nil_r (Buffer.writeInt32BE lo)).
    apply (readInt32BE_writeInt32BE (Buffer.writeInt32BE hi) [] lo). }
  assert (Hhi : Buffer.readInt32BE
                  (Buffer.writeInt32BE hi ++ Buffer.writeInt32BE lo) 0
                = Buffer.toInt32 hi).
  { apply (readInt32BE_writeInt32BE [] (Buffer.writeInt32BE lo) hi). }
  rewrite Hlo, Hhi.
  unfold Long.toNumber, Long.fromBits. cbn [Long.low Long.high].
  subst hi lo.
  rewrite !toUint32_toInt32.
  rewrite !(toInt32_small (Buffer.toInt32 _)) by apply toInt32_range.
  assert (Hq : - 2 ^ 31 <= t / 2 ^ 32 < 2 ^ 31).
  { split.
    - apply Z.div_le_lower_bound; lia.
    - apply Z.div_lt_upper_bound; lia. }
  rewrite (toInt32_small (t / 2 ^ 32)) by exact Hq.
  change (Buffer.toInt32 t mod 2 ^ 32)
    with (Buffer.toUint32 (Buffer.toInt32 t)).
  rewrite toUint32_toInt32.
  pose proof (Z.div_mod t (2 ^ 32) ltac:(lia)). lia.
Qed.

Lemma slice_app_le (a b : Buffer.t) (start stop : nat) :
  (stop <= length a)%nat ->
  Buffer.slice (a ++ b) start stop = Buffer.slice a start stop.
Proof.
  intros Hle. unfold Buffer.slice.
  rewrite drop_app. apply take_app_le.
  rewrite length_drop. lia.
Qed.

(* ===================================================================== *)
(** * The beacon loop                                                     *)
(* ===================================================================== *)

Section BeaconLoop.
Context {C : Beacons.Crypto}.
Variable local : Beacons.ECDH.
Variable addressBook : Beacons.addressBookCallback.
Variable pubKe expiration : Buffer.t.

Local Abbreviation loop s :=
  (Beacons.beaconLoop s local addressBook pubKe expiration).
Local Abbreviation judge :=
  (BeaconSpec.judge local addressBook pubKe expiration).

(** The loop stops once [i] has reached the end of the stream. *)
Lemma beaconLoop_done (s : Buffer.t) (fuel i : nat) :
  (length s <= i)%nat -> loop s (S fuel) i = Ok None.
Proof.
  intros Hle. cbn [Beacons.beaconLoop].
  destruct (Nat.ltb_spec i (length s)); [lia | reflexivity].
Qed.

(** A trailing block of fewer than 48 bytes is rejected. *)
Lemma beaconLoop_truncated (s : Buffer.t) (fuel i : nat) :
  (i < length s < i + 48)%nat ->
  loop s (S fuel) i = Err MalformedBeaconKeyId.
Proof.
  intros Hlt. cbn [Beacons.beaconLoop].
  destruct (Nat.ltb_spec i (length s)); [| lia].
  rewrite slice_length. unfold Beacons.bufferSize.
  destruct (Nat.eqb_spec (Nat.min (i + 48 - i) (length s - i)) 48);
    [lia | reflexivity].
Qed.

(** One iteration on a complete block: the block is judged as the
    specification says, a match is returned, a key the ECDH rejects
    throws, anything else moves on. *)
Lemma beaconLoop_judge (s : Buffer.t) (fuel i : nat) :
  (i + 48 <= length s)%nat ->
  loop s (S fuel) i
  = match judge (Buffer.slice s i (i + 48)) with
    | BeaconSpec.matched plain => Ok (Some plain)
    | BeaconSpec.keyRejected => Err InvalidPublicKey
    | _ => loop s fuel (i + 48)
    end.
Proof.
  intros Hle. cbn [Beacons.beaconLoop].
  destruct (Nat.ltb_spec i (length s)); [| lia].
  rewrite slice_length. unfold Beacons.bufferSize.
  destruct (Nat.eqb_spec (Nat.min (i + 48 - i) (length s - i)) 48);
    [| lia].
  cbn [negb]. unfold BeaconSpec.judge, BeaconSpec.decrypt,
    BeaconSpec.expectedHmac.
  destruct (Beacons.computeSecret local pubKe) as [sey |]; [| reflexivity].
  cbv zeta.
  destruct (Beacons.createDecipheriv _ _ _) as [plain |]; [| reflexivity].
  destruct (addressBook plain) as [pubKx |]; [| reflexivity].
  destruct (Beacons.computeSecret local pubKx) as [sxy |]; [| reflexivity].
  destruct (String.eqb _ _); reflexivity.
Qed.

(** Enough fuel: the bound of the model is never hit. *)
Lemma beaconLoop_fuel (s : Buffer.t) (fuel i : nat) :
  (1 <= fuel)%nat -> (length s <= i + 48 * (fuel - 1))%nat ->
  loop s fuel i <> Err LoopFuel.
Proof.
  revert i. induction fuel as [| fuel IH]; intros i H1 Hlen; [lia |].
  destruct (Nat.le_gt_cases (length s) i) as [Hdone | Hmore].
  { rewrite beaconLoop_done by lia. discriminate. }
  destruct (Nat.le_gt_cases (i + 48) (length s)) as [Hfull | Hshort].
  - rewrite beaconLoop_judge by lia.
    assert (Hnext : loop s fuel (i + 48) <> Err LoopFuel)
      by (apply IH; lia).
    destruct (judge _); try exact Hnext; discriminate.
  - rewrite beaconLoop_truncated by lia. discriminate.
Qed.

(** The errors of the loop: the one of a truncated trailing block, and
    the one of the ECDH on a complete block that is judged
    [keyRejected]. *)
Lemma beaconLoop_Err (s : Buffer.t) (fuel i : nat) (e : error) :
  loop s fuel i = Err e ->
  e = LoopFuel
  \/ (e = MalformedBeaconKeyId
      /\ (i < length s)%nat /\ (length s - i) mod 48 <> 0)%nat
  \/ (e = InvalidPublicKey
      /\ exists j : nat,
           (i + 48 * j + 48 <= length s)%nat
           /\ judge (Buffer.slice s (i + 48 * j) (i + 48 * j + 48))
              = BeaconSpec.keyRejected).
Proof.
  revert i. induction fuel as [| fuel IH]; intros i He.
  { cbn in He. left. congruence. }
  destruct (Nat.le_gt_cases (length s) i) as [Hdone | Hmore].
  { rewrite beaconLoop_done in He by lia. discriminate. }
  destruct (Nat.le_gt_cases (i + 48) (length s)) as [Hfull | Hshort].
  - rewrite beaconLoop_judge in He by lia.
    destruct (judge (Buffer.slice s i (i + 48))) as [| | p | p | p] eqn:Hj.
    1: { injection He as <-. right. right. split; [reflexivity |].
         exists 0%nat. rewrite Nat.mul_0_r, Nat.add_0_r.
         split; [lia | exact Hj]. }
    4: discriminate.
    all: destruct (IH _ He)
           as [-> | [(-> & Hlt & Hmod) | (-> & j & Hlen & Hrej)]];
      [ left; reflexivity
      | right; left; repeat split; [lia |];
        replace (length s - i)%nat
          with (length s - (i + 48) + 1 * 48)%nat by lia;
        rewrite Nat.Div0.mod_add; exact Hmod
      | right; right; split; [reflexivity |];
        exists (S j);
        replace (i + 48 * S j)%nat with (i + 48 + 48 * j)%nat by lia;
        split; [exact Hlen | exact Hrej] ].
  - rewrite beaconLoop_truncated in He by lia.
    injection He as <-. right. left. repeat split; [lia |].
    rewrite Nat.mod_small by lia. lia.
Qed.


(** A key id is returned for a complete block that is judged a match,
    and every complete block before it was passed over. *)
Lemma beaconLoop_Some (s : Buffer.t) (fuel i : nat) (plain : Buffer.t) :
  loop s fuel i = Ok (Some plain) ->
  exists j : nat,
    (i + 48 * j + 48 <= length s)%nat
    /\ judge (Buffer.slice s (i + 48 * j) (i + 48 * j + 48))
       = BeaconSpec.matched plain
    /\ forall j' : nat, (j' < j)%nat ->
         BeaconSpec.isSkipped
           (judge (Buffer.slice s (i + 48 * j') (i + 48 * j' + 48)))
         = true.
Proof.
  revert i. induction fuel as [| fuel IH]; intros i He.
  { cbn in He. discriminate. }
  destruct (Nat.le_gt_cases (length s) i) as [Hdone | Hmore].
  { rewrite beaconLoop_done in He by lia. discriminate. }
  destruct (Nat.le_gt_cases (i + 48) (length s)) as [Hfull | Hshort].
  - rewrite beaconLoop_judge in He by lia.
    destruct (judge (Buffer.slice s i (i + 48))) as [| | p | p | p] eqn:Hj.
    1: discriminate.
    4: { injection He as ->. exists 0%nat.
         rewrite Nat.mul_0_r, Nat.add_0_r.
         repeat split; [lia | exact Hj | intros j' Hj'; lia]. }
    all: destruct (IH _ He) as (j & Hlen & Hm & Hbefore);
      exists (S j);
      replace (i + 48 * S j)%nat with (i + 48 + 48 * j)%nat by lia;
      (repeat split; [exact Hlen | exact Hm |]);
      intros [| j'] Hj';
      [ rewrite Nat.mul_0_r, Nat.add_0_r, Hj; reflexivity
      | replace (i + 48 * S j')%nat with (i + 48 + 48 * j')%nat by lia;
        apply Hbefore; lia ].
  - rewrite beaconLoop_truncated in He by lia. discriminate.
Qed.

(** What a verdict says about the ECDH. *)
Lemma judge_keyRejected (beacon : Buffer.t) :
  judge beacon = BeaconSpec.keyRejected ->
  Beacons.computeSecret local pubKe = None
  \/ exists plain pubKx : Buffer.t,
       BeaconSpec.decrypt local pubKe expiration beacon = Some plain
       /\ addressBook plain = Some pubKx
       /\ Beacons.computeSecret local pubKx = None.
Proof.
  unfold BeaconSpec.judge, BeaconSpec.expectedHmac.
  destruct (Beacons.computeSecret local pubKe) as [sey |] eqn:Hsey;
    [| left; reflexivity].
  destruct (BeaconSpec.decrypt local pubKe expiration beacon)
    as [plain |] eqn:Hd; [| discriminate].
  destruct (addressBook plain) as [pubKx |] eqn:Ha; [| discriminate].
  destruct (Beacons.computeSecret local pubKx) as [sxy |] eqn:Hsxy.
  - destruct (String.eqb _ _); discriminate.
  - intros _. right. exists plain, pubKx. repeat split; assumption.
Qed.

(** With a preamble key the ECDH accepts and an address book whose keys
    it accepts, no beacon is judged [keyRejected]. *)
Lemma judge_accepted (beacon : Buffer.t) :
  Beacons.computeSecret local pubKe <> None ->
  (forall keyId pubKx : Buffer.t,
     addressBook keyId = Some pubKx ->
     Beacons.computeSecret local pubKx <> None) ->
  judge beacon <> BeaconSpec.keyRejected.
Proof.
  intros Hke Hbook Hj.
  destruct (judge_keyRejected beacon Hj)
    as [Hnone | (plain & pubKx & _ & Ha & Hnone)].
  - exact (Hke Hnone).
  - exact (Hbook _ _ Ha Hnone).
Qed.

End BeaconLoop.

(* ===================================================================== *)
(** * The small instance satisfies the laws                               *)
(* ===================================================================== *)

Lemma small_point_range (k : Z) :
  0 <= SmallCrypto.point k < SmallCrypto.modulus.
Proof. apply Z.mod_pos_bound. reflexivity. Qed.

Lemma small_readPoint (k : Z) :
  Buffer.readInt32BE (SmallCrypto.getPublicKey k) 61 = SmallCrypto.point k.
Proof.
  unfold SmallCrypto.getPublicKey, SmallCrypto.encode.
  pose proof (readInt32BE_writeInt32BE
                (Byte.x04 :: repeat Byte.x00 60) [] (SmallCrypto.point k))
    as H.
  rewrite app_nil_r in H. cbn [length] in H. rewrite repeat_length in H.
  rewrite <- app_comm_cons in H. rewrite H.
  apply toInt32_small.
  pose proof (small_point_range k). unfold SmallCrypto.modulus in *. lia.
Qed.

(** The public key of a key pair is the encoding of a point. *)
Lemma small_isPoint (k : Z) :
  SmallCrypto.isPoint (SmallCrypto.getPublicKey k) = true.
Proof.
  unfold SmallCrypto.isPoint. cbv zeta. rewrite small_readPoint.
  pose proof (small_point_range k) as Hr.
  destruct (Z.leb_spec 0 (SmallCrypto.point k)); [| lia].
  destruct (Z.ltb_spec (SmallCrypto.point k) SmallCrypto.modulus); [| lia].
  apply String.eqb_refl.
Qed.

Lemma small_computeSecret (a b : Z) :
  SmallCrypto.computeSecret a (SmallCrypto.getPublicKey b)
  = Some (Buffer.writeInt32BE
            ((a * SmallCrypto.point b) mod SmallCrypto.modulus)).
Proof.
  unfold SmallCrypto.computeSecret.
  rewrite small_isPoint, small_readPoint. reflexivity.
Qed.

Lemma small_computeSecret_comm (a b : Z) :
  SmallCrypto.computeSecret a (SmallCrypto.getPublicKey b)
  = SmallCrypto.computeSecret b (SmallCrypto.getPublicKey a).
Proof.
  rewrite !small_computeSecret.
  unfold SmallCrypto.point.
  rewrite !Z.mul_mod_idemp_r by (unfold SmallCrypto.modulus; lia).
  f_equal. f_equal. f_equal. ring.
Qed.

Lemma small_expand_length (seed : Z) (size : nat) :
  length (SmallCrypto.expand seed size) = size.
Proof. unfold SmallCrypto.expand. rewrite length_map. apply length_seq. Qed.

Lemma small_padLength_range (n : nat) :
  (1 <= SmallCrypto.padLength n <= 16)%nat.
Proof.
  unfold SmallCrypto.padLength.
  pose proof (Nat.mod_upper_bound n 16 ltac:(lia)). lia.
Qed.

Lemma small_forallb_repeat (b : Init.Byte.byte) (n : nat) :
  forallb (Byte.eqb b) (repeat b n) = true.
Proof.
  induction n as [| n IH]; [reflexivity |].
  cbn [repeat forallb]. rewrite IH, Byte.byte_dec_lb; reflexivity.
Qed.

Lemma small_rev_padded (data : Buffer.t) (v : Init.Byte.byte) (n : nat) :
  (1 <= n)%nat ->
  rev (data ++ repeat v n) = v :: rev (data ++ repeat v (n - 1)).
Proof.
  intros Hn. destruct n as [| m]; [lia |].
  cbn [repeat]. rewrite repeat_cons, app_assoc.
  replace (S m - 1)%nat with m by lia. apply rev_unit.
Qed.

Lemma small_unpad_pad (data : Buffer.t) :
  SmallCrypto.unpad (SmallCrypto.pad data) = Some data.
Proof.
  unfold SmallCrypto.pad. cbv zeta.
  pose proof (small_padLength_range (length data)) as Hn.
  generalize dependent (SmallCrypto.padLength (length data)). intros n Hn.
  assert (Hv : Z.to_nat (byte.unsigned (byte.of_Z (Z.of_nat n))) = n).
  { rewrite byte.unsigned_of_Z. unfold byte.wrap.
    rewrite Z.mod_small by lia. apply Nat2Z.id. }
  unfold SmallCrypto.unpad.
  rewrite small_rev_padded by lia. rewrite Hv.
  rewrite length_app, repeat_length.
  replace (length data + n - n)%nat with (length data) by lia.
  rewrite drop_app_length, take_app_length, small_forallb_repeat.
  destruct (Nat.leb_spec 1 n); [| lia].
  destruct (Nat.leb_spec n 16); [| lia].
  destruct (Nat.leb_spec n (length data + n)); [| lia].
  reflexivity.
Qed.

Lemma small_unmask (m : Z) (b : Init.Byte.byte) :
  byte.of_Z (byte.unsigned (byte.of_Z (byte.unsigned b + m)) - m) = b.
Proof.
  apply byte.unsigned_inj.
  rewrite !byte.unsigned_of_Z. unfold byte.wrap.
  rewrite Zminus_mod_idemp_l.
  replace (byte.unsigned b + m - m) with (byte.unsigned b) by lia.
  apply byte.wrap_unsigned.
Qed.

Lemma small_decipher_cipher (key iv data : Buffer.t) :
  SmallCrypto.createDecipheriv key iv
    (SmallCrypto.createCipheriv key iv data) = Some data.
Proof.
  unfold SmallCrypto.createDecipheriv, SmallCrypto.createCipheriv.
  rewrite map_map.
  rewrite (map_ext _ (fun b => b)) by (intros b; apply small_unmask).
  rewrite map_id. apply small_unpad_pad.
Qed.

Lemma small_cipher_length (key iv data : Buffer.t) :
  length data = 16%nat ->
  length (SmallCrypto.createCipheriv key iv data) = 32%nat.
Proof.
  intros Hlen. unfold SmallCrypto.createCipheriv, SmallCrypto.pad.
  cbv zeta. rewrite length_map, length_app, repeat_length, Hlen. reflexivity.
Qed.

Lemma small_laws : Beacons.CryptoLaws SmallCrypto.crypto.
Proof.
  constructor.
  - intros k. change (length (SmallCrypto.getPublicKey k) = 65%nat).
    unfold SmallCrypto.getPublicKey, SmallCrypto.encode. cbn [length].
    rewrite length_app, repeat_length. reflexivity.
  - intros a b.
    change (SmallCrypto.computeSecret a (SmallCrypto.getPublicKey b)
            <> None).
    rewrite small_computeSecret. discriminate.
  - exact small_computeSecret_comm.
  - intros data. apply small_expand_length.
  - intros key data. apply small_expand_length.
  - exact small_cipher_length.
  - exact small_decipher_cipher.
Qed.

(* ===================================================================== *)
(** * parseBeacons                                                        *)
(* ===================================================================== *)

Section ParseBeacons.
Context {C : Beacons.Crypto}.
Variable local : Beacons.ECDH.
Variable addressBook : Beacons.addressBookCallback.

Local Abbreviation parse s := (Beacons.parseBeacons s local addressBook).

(** Fewer than 65 bytes: the public key of the preamble is missing. *)
Lemma parseBeacons_no_publicKey (s : Buffer.t) :
  (length s < 65)%nat -> parse (Some s) = Err PreamblePublicKey.
Proof.
  intros Hlen. unfold Beacons.parseBeacons. cbv zeta.
  rewrite slice_length.
  destruct (Nat.eqb_spec (Nat.min (65 - 0) (length s - 0)) 65);
    [lia | reflexivity].
Qed.

(** Between 65 and 72 bytes: the expiration is incomplete. *)
Lemma parseBeacons_no_expiration (s : Buffer.t) :
  (65 <= length s < 73)%nat -> parse (Some s) = Err PreambleExpiration.
Proof.
  intros Hlen. unfold Beacons.parseBeacons. cbv zeta.
  rewrite !slice_length.
  destruct (Nat.eqb_spec (Nat.min (65 - 0) (length s - 0)) 65); [| lia].
  destruct (Nat.eqb_spec (Nat.min (65 + 8 - 65) (length s - 65)) 8);
    [lia | reflexivity].
Qed.

(** From 73 bytes on: the range check, then the loop. *)
Lemma parseBeacons_loop (s : Buffer.t) :
  (73 <= length s)%nat ->
  parse (Some s)
  = if (Beacons.expirationNumber (Buffer.slice s 65 73) <? 0)
       || (Beacons.expirationNumber (Buffer.slice s 65 73)
           >? Beacons.ONE_DAY)
    then Err ExpirationOutOfRange
    else Beacons.beaconLoop s local addressBook
           (Buffer.slice s 0 65) (Buffer.slice s 65 73)
           (S (length s)) 73.
Proof.
  intros Hlen. unfold Beacons.parseBeacons. cbv zeta.
  rewrite !slice_length.
  destruct (Nat.eqb_spec (Nat.min (65 - 0) (length s - 0)) 65); [| lia].
  destruct (Nat.eqb_spec (Nat.min (65 + 8 - 65) (length s - 65)) 8);
    [| lia].
  reflexivity.
Qed.

(** The bound of the model is never hit. *)
Lemma parseBeacons_fuel (s : option Buffer.t) :
  parse s <> Err LoopFuel.
Proof.
  destruct s as [s |]; [| discriminate].
  destruct (Nat.le_gt_cases 73 (length s)) as [Hlong | Hshort].
  - rewrite parseBeacons_loop by exact Hlong.
    destruct (_ || _); [discriminate |].
    apply beaconLoop_fuel; lia.
  - destruct (Nat.le_gt_cases 65 (length s)).
    + rewrite parseBeacons_no_expiration by lia. discriminate.
    + rewrite parseBeacons_no_publicKey by lia. discriminate.
Qed.




(** A key id is answered for a complete block judged a match, before
    which every complete block was passed over. *)
Lemma parseBeacons_Some (s plain : Buffer.t) :
  parse (Some s) = Ok (Some plain) ->
  exists j : nat,
    (73 + 48 * j + 48 <= length s)%nat
    /\ BeaconSpec.judge local addressBook
         (BeaconSpec.pubKeOf s) (BeaconSpec.expirationOf s)
         (Buffer.slice s (73 + 48 * j) (73 + 48 * j + 48))
       = BeaconSpec.matched plain
    /\ forall j' : nat, (j' < j)%nat ->
         BeaconSpec.isSkipped
           (BeaconSpec.judge local addressBook
              (BeaconSpec.pubKeOf s) (BeaconSpec.expirationOf s)
              (Buffer.slice s (73 + 48 * j') (73 + 48 * j' + 48)))
         = true.
Proof.
  intros He.
  destruct (Nat.le_gt_cases 73 (length s)) as [Hlong | Hshort].
  - rewrite parseBeacons_loop in He by exact Hlong.
    destruct (_ || _); [discriminate |].
    apply beaconLoop_Some in He. exact He.
  - destruct (Nat.le_gt_cases 65 (length s)).
    + rewrite parseBeacons_no_expiration in He by lia. discriminate.
    + rewrite parseBeacons_no_publicKey in He by lia. discriminate.
Qed.

Lemma validPreamble_spec (preamble : Buffer.t) :
  BeaconSpec.validPreamble preamble = true ->
  length preamble = 73%nat
  /\ 0 <= Beacons.expirationNumber (BeaconSpec.expirationOf preamble)
       <= Beacons.ONE_DAY.
Proof.
  unfold BeaconSpec.validPreamble. intros H.
  apply andb_prop in H. destruct H as [H H3].
  apply andb_prop in H. destruct H as [H1 H2].
  apply Nat.eqb_eq in H1. apply Z.leb_le in H2. apply Z.leb_le in H3.
  auto.
Qed.

(** After a valid preamble the parser is the loop from offset 73. *)
Lemma parseBeacons_framed (preamble body : Buffer.t) :
  BeaconSpec.validPreamble preamble = true ->
  parse (Some (preamble ++ body))
  = Beacons.beaconLoop (preamble ++ body) local addressBook
      (BeaconSpec.pubKeOf preamble) (BeaconSpec.expirationOf preamble)
      (S (length (preamble ++ body))) 73.
Proof.
  intros Hvalid. apply validPreamble_spec in Hvalid.
  destruct Hvalid as [Hlen Hrange].
  rewrite parseBeacons_loop by (rewrite length_app; lia).
  rewrite !slice_app_le by lia.
  fold (BeaconSpec.expirationOf preamble).
  fold (BeaconSpec.pubKeOf preamble).
  destruct (Z.ltb_spec (Beacons.expirationNumber
                          (BeaconSpec.expirationOf preamble)) 0); [lia |].
  destruct (Z.gtb_spec (Beacons.expirationNumber
                          (BeaconSpec.expirationOf preamble))
                       Beacons.ONE_DAY); [lia |].
  reflexivity.
Qed.

Lemma wellSized_cons (beacon : Buffer.t) (beacons : list Buffer.t) :
  BeaconSpec.wellSized (beacon :: beacons) = true ->
  length beacon = 48%nat /\ BeaconSpec.wellSized beacons = true.
Proof.
  unfold BeaconSpec.wellSized. cbn [forallb]. intros H.
  apply andb_prop in H. destruct H as [H1 H2].
  apply Nat.eqb_eq in H1. auto.
Qed.

Lemma wellSized_length (beacons : list Buffer.t) :
  BeaconSpec.wellSized beacons = true ->
  length (Buffer.concat beacons) = (48 * length beacons)%nat.
Proof.
  induction beacons as [| b bs IH]; intros H; [reflexivity |].
  apply wellSized_cons in H. destruct H as [Hb Hbs].
  unfold Buffer.concat in *. cbn [List.concat length].
  rewrite length_app, Hb, IH by exact Hbs. lia.
Qed.

(** The loop over whole blocks: the first match or the first beacon on
    which the ECDH throws, or on to what follows the blocks. *)
Lemma beaconLoop_blocks (pubKe expiration : Buffer.t)
    (beacons : list Buffer.t) :
  BeaconSpec.wellSized beacons = true ->
  forall (pre rest : Buffer.t) (fuel : nat),
    Beacons.beaconLoop (pre ++ Buffer.concat beacons ++ rest)
      local addressBook pubKe expiration
      (length beacons + fuel) (length pre)
    = match BeaconSpec.firstMatch local addressBook pubKe expiration
              beacons with
      | Ok None =>
        Beacons.beaconLoop (pre ++ Buffer.concat beacons ++ rest)
          local addressBook pubKe expiration
          fuel (length pre + length (Buffer.concat beacons))
      | answer => answer
      end.
Proof.
  induction beacons as [| b bs IH]; intros Hsized pre rest fuel.
  { cbn. rewrite Nat.add_0_r. reflexivity. }
  apply wellSized_cons in Hsized. destruct Hsized as [Hb Hbs].
  unfold Buffer.concat in *.
  cbn [List.concat length Nat.add BeaconSpec.firstMatch].
  rewrite beaconLoop_judge
    by (rewrite !length_app; lia).
  assert (Hslice : Buffer.slice (pre ++ (b ++ concat bs) ++ rest)
                     (length pre) (length pre + 48) = b).
  { rewrite <- (Nat.add_0_r (length pre)) at 1.
    rewrite slice_shift, <- app_assoc. apply slice_app_l, Hb. }
  rewrite Hslice.
  assert (Hnext :
    Beacons.beaconLoop (pre ++ (b ++ concat bs) ++ rest)
      local addressBook pubKe expiration
      (length bs + fuel) (length pre + 48)
    = match BeaconSpec.firstMatch local addressBook pubKe expiration bs
      with
      | Ok None =>
        Beacons.beaconLoop (pre ++ (b ++ concat bs) ++ rest)
          local addressBook pubKe expiration fuel
          (length pre + length (b ++ concat bs))
      | answer => answer
      end).
  { specialize (IH Hbs (pre ++ b) rest fuel).
    rewrite length_app, Hb in IH.
    rewrite (length_app b), Hb, Nat.add_assoc.
    rewrite <- !app_assoc in IH. rewrite <- !app_assoc. exact IH. }
  destruct (BeaconSpec.judge _ _ _ _ b); try exact Hnext; reflexivity.
Qed.

End ParseBeacons.

(* ===================================================================== *)
(** * generatePreambleAndBeacons and the round trip                       *)
(* ===================================================================== *)

Section Generate.
Context {C : Beacons.Crypto}.

(** [forEach] returns what the body pushed for each element, in order. *)
Lemma forEach_Ok_inv (body : Buffer.t -> result Buffer.t)
    (array pushed : list Buffer.t) :
  Beacons.forEach body array = Ok pushed ->
  Forall2 (fun x b => body x = Ok b) array pushed.
Proof.
  revert pushed. induction array as [| x xs IH]; intros pushed H.
  { cbn in H. injection H as <-. constructor. }
  cbn [Beacons.forEach] in H.
  destruct (body x) as [b |] eqn:Hb; [| discriminate].
  destruct (Beacons.forEach body xs) as [bs |]; [| discriminate].
  injection H as <-. constructor; [exact Hb | apply IH; reflexivity].
Qed.

(** It throws what the body throws on some element. *)
Lemma forEach_Err_inv (body : Buffer.t -> result Buffer.t)
    (array : list Buffer.t) (e : error) :
  Beacons.forEach body array = Err e ->
  exists x : Buffer.t, In x array /\ body x = Err e.
Proof.
  induction array as [| x xs IH]; intros H; [discriminate |].
  cbn [Beacons.forEach] in H.
  destruct (body x) as [b |] eqn:Hb.
  - destruct (Beacons.forEach body xs) as [bs |]; [discriminate |].
    destruct (IH H) as (y & Hy & Hbody).
    exists y. split; [right; exact Hy | exact Hbody].
  - injection H as <-. exists x. split; [left; reflexivity | exact Hb].
Qed.

(** It succeeds as soon as the body does on every element. *)
Lemma forEach_succeeds (body : Buffer.t -> result Buffer.t)
    (array : list Buffer.t) :
  (forall x, In x array -> exists b, body x = Ok b) ->
  exists pushed, Beacons.forEach body array = Ok pushed.
Proof.
  induction array as [| x xs IH]; intros Hall.
  { exists []. reflexivity. }
  destruct (Hall x (or_introl eq_refl)) as (b & Hb).
  destruct IH as (bs & Hbs).
  { intros y Hy. apply Hall. right. exact Hy. }
  exists (b :: bs). cbn [Beacons.forEach]. rewrite Hb, Hbs. reflexivity.
Qed.

(** It throws as soon as the body does on one element. *)
Lemma forEach_throws (body : Buffer.t -> result Buffer.t)
    (array : list Buffer.t) (x : Buffer.t) (e : error) :
  In x array -> body x = Err e ->
  exists e', Beacons.forEach body array = Err e'.
Proof.
  induction array as [| y ys IH]; intros Hin Hx; [destruct Hin |].
  cbn [Beacons.forEach].
  destruct (body y) as [b |] eqn:Hb; [| eexists; reflexivity].
  destruct Hin as [-> | Hin]; [congruence |].
  destruct (IH Hin Hx) as (e' & He'). rewrite He'. eexists; reflexivity.
Qed.

(** A beacon is made exactly when both calls of [computeSecret] accept
    the key. *)
Lemma beaconFor_Ok_inv (ecdh ke : Beacons.ECDH)
    (expiration keyId pubKy beacon : Buffer.t) :
  Beacons.beaconFor ecdh ke expiration keyId pubKy = Ok beacon ->
  exists sxy sey : Buffer.t,
    Beacons.computeSecret ecdh pubKy = Some sxy
    /\ Beacons.computeSecret ke pubKy = Some sey
    /\ beacon
       = Beacons.createCipheriv
           (Buffer.slice (Beacons.HKDF sey expiration [] 32) 16 32)
           (Buffer.slice (Beacons.HKDF sey expiration [] 32) 0 16)
           keyId
         ++ Buffer.slice
              (Beacons.createHmac (Beacons.HKDF sxy expiration [] 32)
                 expiration) 0 16.
Proof.
  unfold Beacons.beaconFor. cbv zeta.
  destruct (Beacons.computeSecret ecdh pubKy) as [sxy |]; [| discriminate].
  destruct (Beacons.computeSecret ke pubKy) as [sey |]; [| discriminate].
  intros H. injection H as <-. exists sxy, sey.
  unfold Buffer.concat. cbn [List.concat]. rewrite app_nil_r. auto.
Qed.

Lemma beaconFor_Err_iff (ecdh ke : Beacons.ECDH)
    (expiration keyId pubKy : Buffer.t) (e : error) :
  Beacons.beaconFor ecdh ke expiration keyId pubKy = Err e
  <-> e = InvalidPublicKey
      /\ (Beacons.computeSecret ecdh pubKy = None
          \/ Beacons.computeSecret ke pubKy = None).
Proof.
  unfold Beacons.beaconFor. cbv zeta.
  destruct (Beacons.computeSecret ecdh pubKy) as [sxy |].
  2: { split; [intros H; injection H as <-; auto |].
       intros [-> _]. reflexivity. }
  destruct (Beacons.computeSecret ke pubKy) as [sey |].
  - split; [discriminate | intros [_ [H | H]]; discriminate].
  - split; [intros H; injection H as <-; auto |].
    intros [-> _]. reflexivity.
Qed.

(** A beacon is made for the public key of any key pair. *)
Lemma beaconFor_keyPair (L : Beacons.CryptoLaws C)
    (ecdh ke recipient : Beacons.ECDH) (expiration keyId : Buffer.t) :
  exists beacon : Buffer.t,
    Beacons.beaconFor ecdh ke expiration keyId
      (Beacons.getPublicKey recipient) = Ok beacon.
Proof.
  destruct (Beacons.beaconFor ecdh ke expiration keyId
              (Beacons.getPublicKey recipient)) as [b | e] eqn:Hb;
    [exists b; reflexivity |].
  apply beaconFor_Err_iff in Hb. destruct Hb as [_ [H | H]];
    exfalso; revert H; apply Beacons.computeSecret_getPublicKey.
Qed.

(** What is generated for a non-empty list and an expiration the range
    check lets through. *)
Lemma generate_stream (publicKeys : list Buffer.t)
    (ecdh ke : Beacons.ECDH) (t : Z) :
  publicKeys <> [] -> 0 <= t <= Beacons.ONE_DAY ->
  Beacons.generatePreambleAndBeacons (Some publicKeys) (Some ecdh) ke t
  = match Beacons.forEach
            (Beacons.beaconFor ecdh ke (Beacons.expirationBufferOf t)
               (Beacons.createPublicKeyHash (Beacons.getPublicKey ecdh)))
            publicKeys with
    | Err e => Err e
    | Ok beacons =>
      Ok (Some ((Beacons.getPublicKey ke ++ Beacons.expirationBufferOf t)
                ++ Buffer.concat beacons))
    end.
Proof.
  intros Hne Ht. unfold Beacons.generatePreambleAndBeacons.
  destruct (Z.ltb_spec t 0); [lia |].
  destruct (Z.gtb_spec t Beacons.ONE_DAY); [lia |].
  cbn [orb].
  destruct publicKeys as [| k ks]; [congruence |].
  cbn [length Nat.eqb]. cbv zeta.
  destruct (Beacons.forEach _ _) as [beacons | e]; [| reflexivity].
  unfold Buffer.concat. cbn [List.concat].
  rewrite app_nil_r. reflexivity.
Qed.

Lemma generated_preamble_valid (L : Beacons.CryptoLaws C)
    (ke : Beacons.ECDH) (t : Z) :
  0 <= t <= Beacons.ONE_DAY ->
  BeaconSpec.validPreamble
    (Beacons.getPublicKey ke ++ Beacons.expirationBufferOf t) = true
  /\ BeaconSpec.pubKeOf
       (Beacons.getPublicKey ke ++ Beacons.expirationBufferOf t)
     = Beacons.getPublicKey ke
  /\ BeaconSpec.expirationOf
       (Beacons.getPublicKey ke ++ Beacons.expirationBufferOf t)
     = Beacons.expirationBufferOf t.
Proof.
  intros Ht.
  pose proof (Beacons.getPublicKey_length ke) as Hke.
  assert (Hexp : BeaconSpec.expirationOf
                   (Beacons.getPublicKey ke ++ Beacons.expirationBufferOf t)
                 = Beacons.expirationBufferOf t).
  { unfold BeaconSpec.expirationOf.
    rewrite slice_app_r by exact Hke.
    rewrite <- (app_nil_r (Beacons.expirationBufferOf t)).
    apply slice_app_l. reflexivity. }
  split; [| split; [apply slice_app_l, Hke | exact Hexp]].
  unfold BeaconSpec.validPreamble.
  rewrite Hexp, expirationNumber_expirationBufferOf
    by (unfold Beacons.ONE_DAY in Ht; lia).
  rewrite length_app, Hke, expirationBufferOf_length.
  destruct (Z.leb_spec 0 t); [| lia].
  destruct (Z.leb_spec t Beacons.ONE_DAY); [| lia].
  reflexivity.
Qed.

Lemma createPublicKeyHash_length (L : Beacons.CryptoLaws C)
    (publicKey : Buffer.t) :
  length (Beacons.createPublicKeyHash publicKey) = 16%nat.
Proof.
  unfold Beacons.createPublicKeyHash.
  rewrite slice_length, Beacons.createHash_length. reflexivity.
Qed.

Lemma beaconFor_length (L : Beacons.CryptoLaws C)
    (ecdh ke : Beacons.ECDH) (expiration pubKy beacon : Buffer.t) :
  Beacons.beaconFor ecdh ke expiration
    (Beacons.createPublicKeyHash (Beacons.getPublicKey ecdh)) pubKy
  = Ok beacon ->
  length beacon = 48%nat.
Proof.
  intros Hb. apply beaconFor_Ok_inv in Hb.
  destruct Hb as (sxy & sey & _ & _ & ->).
  rewrite length_app, slice_length.
  rewrite Beacons.createCipheriv_length
    by (apply createPublicKeyHash_length, L).
  rewrite Beacons.createHmac_length. reflexivity.
Qed.

(** The recipient decrypts the sender's key id from the beacon made for
    it, and the HMAC it expects for the sender's public key is the one
    in the beacon. *)
Lemma beaconFor_judged (L : Beacons.CryptoLaws C)
    (sender recipient ke : Beacons.ECDH) (expiration beacon : Buffer.t)
    (addressBook : Beacons.addressBookCallback) :
  let keyId :=
    Beacons.createPublicKeyHash (Beacons.getPublicKey sender) in
  Beacons.beaconFor sender ke expiration keyId
    (Beacons.getPublicKey recipient) = Ok beacon ->
  BeaconSpec.decrypt recipient (Beacons.getPublicKey ke) expiration beacon
  = Some keyId
  /\ (addressBook keyId = Some (Beacons.getPublicKey sender) ->
      BeaconSpec.judge recipient addressBook (Beacons.getPublicKey ke)
        expiration beacon = BeaconSpec.matched keyId)
  /\ (addressBook keyId = None ->
      BeaconSpec.judge recipient addressBook (Beacons.getPublicKey ke)
        expiration beacon = BeaconSpec.unrecognized keyId).
Proof.
  intros keyId Hb.
  apply beaconFor_Ok_inv in Hb.
  destruct Hb as (sxy & sey & Hsxy & Hsey & ->).
  assert (Hcipher : forall key iv,
            length (Beacons.createCipheriv key iv keyId) = 32%nat).
  { intros key iv. apply Beacons.createCipheriv_length.
    apply createPublicKeyHash_length, L. }
  rewrite <- (Beacons.computeSecret_comm recipient ke) in Hsey.
  rewrite (Beacons.computeSecret_comm sender recipient) in Hsxy.
  set (beacon := _ ++ _).
  assert (Hdec : BeaconSpec.decrypt recipient (Beacons.getPublicKey ke)
                   expiration beacon = Some keyId).
  { unfold BeaconSpec.decrypt. rewrite Hsey. cbv zeta.
    unfold beacon. rewrite slice_app_l by apply Hcipher.
    apply Beacons.createDecipheriv_createCipheriv. }
  split; [exact Hdec |].
  unfold BeaconSpec.judge. rewrite Hsey, Hdec.
  split; intros Hbook; rewrite Hbook; [| reflexivity].
  unfold BeaconSpec.expectedHmac. rewrite Hsxy. cbv zeta.
  assert (Hhmac : Buffer.slice beacon 32 48
                  = Buffer.slice
                      (Beacons.createHmac
                         (Beacons.HKDF sxy expiration [] 32) expiration)
                      0 16).
  { unfold beacon. rewrite slice_app_r by apply Hcipher.
    change (48 - 32)%nat with 16%nat.
    unfold Buffer.slice. rewrite !drop_0, !Nat.sub_0_r.
    rewrite take_take. reflexivity. }
  rewrite Hhmac, String.eqb_refl. reflexivity.
Qed.

End Generate.

(** C1.  Round trip: for key pairs A and B of a crypto library that obeys
    [CryptoLaws], any ephemeral key pair and any expiration
    0 <= t <= 86400, generatePreambleAndBeacons([B.public], A, t) returns
    a stream s such that parseBeacons(s, B, addr) returns hashOf(A.public)
    whenever addr maps hashOf(A.public) to A.public, and returns null
    whenever addr maps every hash to null. *)
Theorem beacon_round_trip (C : Beacons.Crypto) (L : Beacons.CryptoLaws C)
    (A B ke : Beacons.ECDH) (t : Z) (addr : Beacons.addressBookCallback) :
  0 <= t <= 86400 ->
  exists s : Buffer.t,
    Beacons.generatePreambleAndBeacons
      (Some [Beacons.getPublicKey B]) (Some A) ke t = Ok (Some s)
    /\ (addr (Beacons.createPublicKeyHash (Beacons.getPublicKey A))
        = Some (Beacons.getPublicKey A) ->
        Beacons.parseBeacons (Some s) B addr
        = Ok (Some (Beacons.createPublicKeyHash (Beacons.getPublicKey A))))
    /\ ((forall h, addr h = None) ->
        Beacons.parseBeacons (Some s) B addr = Ok None).
Proof.
  intros Ht.
  assert (Ht' : 0 <= t <= Beacons.ONE_DAY)
    by (unfold Beacons.ONE_DAY; lia).
  set (keyId := Beacons.createPublicKeyHash (Beacons.getPublicKey A)).
  destruct (beaconFor_keyPair L A ke B (Beacons.expirationBufferOf t) keyId)
    as (beacon & Hbeacon).
  exists ((Beacons.getPublicKey ke ++ Beacons.expirationBufferOf t)
          ++ Buffer.concat [beacon]).
  split.
  { rewrite generate_stream by (try discriminate; exact Ht').
    cbn [Beacons.forEach]. fold keyId. rewrite Hbeacon. reflexivity. }
  destruct (generated_preamble_valid L ke t Ht') as (Hvalid & HpubKe & Hexp).
  set (preamble := Beacons.getPublicKey ke ++ Beacons.expirationBufferOf t)
    in *.
  assert (Hsized : BeaconSpec.wellSized [beacon] = true).
  { unfold BeaconSpec.wellSized. cbn [forallb].
    rewrite (beaconFor_length L _ _ _ _ _ Hbeacon). reflexivity. }
  assert (Hparse :
    Beacons.parseBeacons (Some (preamble ++ Buffer.concat [beacon])) B addr
    = BeaconSpec.firstMatch B addr (Beacons.getPublicKey ke)
        (Beacons.expirationBufferOf t) [beacon]).
  { rewrite parseBeacons_framed by exact Hvalid.
    rewrite HpubKe, Hexp.
    pose proof (beaconLoop_blocks B addr (Beacons.getPublicKey ke)
                  (Beacons.expirationBufferOf t) [beacon] Hsized
                  preamble []
                  (length (preamble ++ Buffer.concat [beacon]))) as Hloop.
    rewrite app_nil_r in Hloop.
    apply validPreamble_spec in Hvalid. destruct Hvalid as [Hlen _].
    rewrite Hlen in Hloop.
    change (length [beacon]
            + length (preamble ++ Buffer.concat [beacon]))%nat
      with (S (length (preamble ++ Buffer.concat [beacon]))) in Hloop.
    rewrite Hloop.
    destruct (BeaconSpec.firstMatch _ _ _ _ _) as [[plain |] | e];
      [reflexivity | | reflexivity].
    rewrite (length_app preamble), Hlen.
    apply (beaconLoop_done B addr (Beacons.getPublicKey ke)
             (Beacons.expirationBufferOf t)
             (preamble ++ Buffer.concat [beacon])
             (72 + length (Buffer.concat [beacon]))).
    rewrite length_app. lia. }
  destruct (beaconFor_judged L A B ke (Beacons.expirationBufferOf t) beacon
              addr Hbeacon) as (_ & Hmatch & Hunknown).
  fold keyId in Hmatch, Hunknown.
  split.
  - intros Hbook. etransitivity; [exact Hparse |].
    cbn [BeaconSpec.firstMatch]. rewrite (Hmatch Hbook). reflexivity.
  - intros Hempty. etransitivity; [exact Hparse |].
    cbn [BeaconSpec.firstMatch]. rewrite (Hunknown (Hempty keyId)).
    reflexivity.
Qed.

#[local] Existing Instance SmallCrypto.crypto.

(** The round trip run for Alice and Bob with 3600 seconds: Bob finds
    Alice's key id with an address book that knows Alice, and [null] with
    an empty one. *)
Lemma beacon_round_trip_witness :
  Beacons.parseBeacons
    (Some (SmallCrypto.streamOf
       (Beacons.generatePreambleAndBeacons
          (Some [Beacons.getPublicKey SmallCrypto.bob])
          (Some SmallCrypto.alice) SmallCrypto.ephemeral 3600)))
    SmallCrypto.bob
    (SmallCrypto.addressBookOf [Beacons.getPublicKey SmallCrypto.alice])
  = Ok (Some (Beacons.createPublicKeyHash
                (Beacons.getPublicKey SmallCrypto.alice)))
  /\ Beacons.parseBeacons
       (Some (SmallCrypto.streamOf
          (Beacons.generatePreambleAndBeacons
             (Some [Beacons.getPublicKey SmallCrypto.bob])
             (Some SmallCrypto.alice) SmallCrypto.ephemeral 3600)))
       SmallCrypto.bob SmallCrypto.emptyAddressBook
     = Ok None.
Proof.
  split.
  - destruct (beacon_round_trip SmallCrypto.crypto small_laws
                SmallCrypto.alice SmallCrypto.bob SmallCrypto.ephemeral 3600
                (SmallCrypto.addressBookOf
                   [Beacons.getPublicKey SmallCrypto.alice])
                ltac:(lia)) as (s & Hgen & Hhit & _).
    rewrite Hgen. cbn [SmallCrypto.streamOf]. apply Hhit.
    vm_compute. reflexivity.
  - destruct (beacon_round_trip SmallCrypto.crypto small_laws
                SmallCrypto.alice SmallCrypto.bob SmallCrypto.ephemeral 3600
                SmallCrypto.emptyAddressBook
                ltac:(lia)) as (s & Hgen & _ & Hmiss).
    rewrite Hgen. cbn [SmallCrypto.streamOf]. apply Hmiss.
    intros h. reflexivity.
Defined.

(* ===================================================================== *)
(** * The argument checks of generatePreambleAndBeacons                   *)
(* ===================================================================== *)

(** With both objects present, the range error is thrown exactly outside
    0 .. ONE_DAY, and ONE_DAY is 86400000. *)
Lemma generate_range_error_iff (C : Beacons.Crypto)
    (publicKeys : list Buffer.t) (ecdh ke : Beacons.ECDH) (t : Z) :
  Beacons.generatePreambleAndBeacons (Some publicKeys) (Some ecdh) ke t
  = Err SecondsUntilExpirationRange
  <-> t < 0 \/ t > 86400000.
Proof.
  unfold Beacons.generatePreambleAndBeacons, Beacons.ONE_DAY.
  destruct (Z.ltb_spec t 0); destruct (Z.gtb_spec t 86400000); cbn [orb].
  1-3: split; [intros _; lia | reflexivity].
  split; [| lia].
  destruct (length publicKeys =? 0)%nat; [discriminate |]. cbv zeta.
  destruct (Beacons.forEach _ _) as [beacons | e] eqn:Hpushed;
    [discriminate |].
  intros Herr. injection Herr as ->.
  apply forEach_Err_inv in Hpushed. destruct Hpushed as (x & _ & Hx).
  apply beaconFor_Err_iff in Hx. destruct Hx as [Hx _]. discriminate.
Qed.

(** C4.  One second more than a day is accepted: for 86401 the call
    returns a 121-byte stream instead of throwing the range error. *)
Theorem generate_accepts_86401 :
  exists s : Buffer.t,
    Beacons.generatePreambleAndBeacons
      (Some [SmallCrypto.getPublicKey SmallCrypto.bob])
      (Some SmallCrypto.alice) SmallCrypto.ephemeral 86401 = Ok (Some s)
    /\ length s = 121%nat
    /\ Beacons.expirationNumber (BeaconSpec.expirationOf s) = 86401.
Proof.
  eexists. split; [vm_compute; reflexivity |].
  split; vm_compute; reflexivity.
Qed.

(** C7, as stated, fails: for the empty list the result is not an empty
    buffer. *)
Lemma generate_empty_list_counterexample :
  Beacons.generatePreambleAndBeacons
    (Some []) (Some SmallCrypto.alice) SmallCrypto.ephemeral 3600
  <> Ok (Some []).
Proof. vm_compute. discriminate. Qed.

(** C7, amended.  For an empty, non-null publicKeysToNotify and an
    expiration within 0 .. ONE_DAY, generatePreambleAndBeacons does not
    fail and returns null: no stream at all, not a zero-length buffer. *)
Theorem generate_empty_list_null (C : Beacons.Crypto)
    (ecdh ke : Beacons.ECDH) (t : Z) :
  0 <= t <= Beacons.ONE_DAY ->
  Beacons.generatePreambleAndBeacons (Some []) (Some ecdh) ke t = Ok None.
Proof.
  intros Ht. unfold Beacons.generatePreambleAndBeacons.
  destruct (Z.ltb_spec t 0); [lia |].
  destruct (Z.gtb_spec t Beacons.ONE_DAY); [lia |].
  reflexivity.
Qed.

Lemma generate_empty_list_null_witness :
  0 <= 3600 <= Beacons.ONE_DAY
  /\ Beacons.generatePreambleAndBeacons
       (Some []) (Some SmallCrypto.alice) SmallCrypto.ephemeral 3600
     = Ok None.
Proof.
  assert (H : 0 <= 3600 <= Beacons.ONE_DAY)
    by (unfold Beacons.ONE_DAY; lia).
  split; [exact H |].
  apply (generate_empty_list_null SmallCrypto.crypto
           SmallCrypto.alice SmallCrypto.ephemeral 3600 H).
Defined.

(** The two results differ for the parser: it answers null to null and
    throws on a zero-length buffer. *)
Lemma parseBeacons_empty_buffer (C : Beacons.Crypto)
    (local : Beacons.ECDH) (addr : Beacons.addressBookCallback) :
  Beacons.parseBeacons (Some []) local addr = Err PreamblePublicKey.
Proof. apply parseBeacons_no_publicKey. cbn. lia. Qed.

(** C9.  parseBeacons called with a null stream returns null and throws
    nothing. *)
Theorem parseBeacons_null (C : Beacons.Crypto)
    (local : Beacons.ECDH) (addr : Beacons.addressBookCallback) :
  Beacons.parseBeacons None local addr = Ok None.
Proof. reflexivity. Qed.

(* ===================================================================== *)
(** * Stream lengths                                                      *)
(* ===================================================================== *)


(** Nor is every 73-byte stream answered with null: the expiration must
    pass the range check. *)
Lemma parseBeacons_preamble_only_out_of_range :
  Beacons.parseBeacons (Some (repeat Byte.xff 73)) SmallCrypto.bob
    SmallCrypto.emptyAddressBook
  = Err ExpirationOutOfRange.
Proof. vm_compute. reflexivity. Qed.

(** This does not depend on the instance: with any crypto library that
    obeys the laws, whatever follows the beacon of the recipient is never
    looked at. *)
Lemma parseBeacons_ignores_tail (C : Beacons.Crypto)
    (L : Beacons.CryptoLaws C) (A B ke : Beacons.ECDH) (t : Z)
    (addr : Beacons.addressBookCallback) (beacon tail : Buffer.t) :
  0 <= t <= Beacons.ONE_DAY ->
  addr (Beacons.createPublicKeyHash (Beacons.getPublicKey A))
  = Some (Beacons.getPublicKey A) ->
  Beacons.beaconFor A ke (Beacons.expirationBufferOf t)
    (Beacons.createPublicKeyHash (Beacons.getPublicKey A))
    (Beacons.getPublicKey B) = Ok beacon ->
  Beacons.parseBeacons
    (Some (((Beacons.getPublicKey ke ++ Beacons.expirationBufferOf t)
            ++ beacon) ++ tail)) B addr
  = Ok (Some (Beacons.createPublicKeyHash (Beacons.getPublicKey A))).
Proof.
  intros Ht Hbook Hbeacon.
  destruct (generated_preamble_valid L ke t Ht) as (Hvalid & HpubKe & Hexp).
  destruct (beaconFor_judged L A B ke (Beacons.expirationBufferOf t) beacon
              addr Hbeacon) as (_ & Hmatch & _).
  pose proof (beaconFor_length L A ke (Beacons.expirationBufferOf t)
                (Beacons.getPublicKey B) beacon Hbeacon) as Hlen48.
  set (preamble := Beacons.getPublicKey ke ++ Beacons.expirationBufferOf t)
    in *.
  rewrite <- app_assoc.
  rewrite parseBeacons_framed by exact Hvalid.
  rewrite HpubKe, Hexp.
  apply validPreamble_spec in Hvalid. destruct Hvalid as [Hlen _].
  rewrite beaconLoop_judge by (rewrite !length_app; lia).
  assert (Hslice : Buffer.slice (preamble ++ beacon ++ tail) 73 (73 + 48)
                   = beacon).
  { rewrite <- Hlen. rewrite <- (Nat.add_0_r (length preamble)) at 1.
    rewrite slice_shift. apply slice_app_l, Hlen48. }
  rewrite Hslice, (Hmatch Hbook). reflexivity.
Qed.

(** The sample address book answers with one of the keys it was given. *)
Lemma addressBookOf_In (known : list Buffer.t) (keyId pubKx : Buffer.t) :
  SmallCrypto.addressBookOf known keyId = Some pubKx -> In pubKx known.
Proof.
  induction known as [| k ks IH]; [discriminate |].
  cbn [SmallCrypto.addressBookOf].
  destruct (String.eqb _ _).
  - intros H. injection H as <-. left. reflexivity.
  - intros H. right. apply IH, H.
Qed.

(** With an address book made of public keys of key pairs, every key it
    returns is accepted by the ECDH. *)
Lemma addressBookOf_accepted (local : @Beacons.ECDH SmallCrypto.crypto)
    (pairs : list (@Beacons.ECDH SmallCrypto.crypto))
    (keyId pubKx : Buffer.t) :
  SmallCrypto.addressBookOf (map Beacons.getPublicKey pairs) keyId
  = Some pubKx ->
  Beacons.computeSecret local pubKx <> None.
Proof.
  intros H. apply addressBookOf_In in H.
  apply in_map_iff in H. destruct H as (k & <- & _).
  apply (Beacons.computeSecret_getPublicKey (CryptoLaws := small_laws)).
Qed.



(* ===================================================================== *)
(** * The first matching beacon                                           *)
(* ===================================================================== *)

Section FirstMatch.
Context {C : Beacons.Crypto}.
Variable local : Beacons.ECDH.
Variable addressBook : Beacons.addressBookCallback.

Local Abbreviation parse s := (Beacons.parseBeacons s local addressBook).

(** The verdict [matched] is the conjunction of the three conditions of
    the specification. *)
Lemma judge_matched_iff (pubKe expiration beacon plain : Buffer.t) :
  BeaconSpec.judge local addressBook pubKe expiration beacon
  = BeaconSpec.matched plain
  <-> BeaconSpec.decrypt local pubKe expiration beacon = Some plain
      /\ exists pubKx : Buffer.t,
           addressBook plain = Some pubKx
           /\ BeaconSpec.expectedHmac local expiration pubKx
              = Some (Buffer.slice beacon 32 48).
Proof.
  unfold BeaconSpec.judge.
  destruct (Beacons.computeSecret local pubKe) as [sey |] eqn:Hsey.
  2: { split; [discriminate |]. intros [H _].
       unfold BeaconSpec.decrypt in H. rewrite Hsey in H. discriminate. }
  destruct (BeaconSpec.decrypt local pubKe expiration beacon) as [p |].
  2: { split; [discriminate | intros [H _]; discriminate]. }
  destruct (addressBook p) as [pubKx |] eqn:Hbook.
  2: { split; [discriminate |].
       intros [H (k & Hk & _)]. injection H as <-. congruence. }
  destruct (BeaconSpec.expectedHmac local expiration pubKx)
    as [hmac |] eqn:Hhmac.
  2: { split; [discriminate |].
       intros [H (k & Hk & Hmac)]. injection H as <-.
       assert (k = pubKx) by congruence. subst k. congruence. }
  destruct (String.eqb _ _) eqn:Heq.
  - apply binary_eqb_iff in Heq. split.
    + intros H. injection H as <-. split; [reflexivity |].
      exists pubKx. split; [exact Hbook | congruence].
    + intros [H _]. injection H as <-. reflexivity.
  - split; [discriminate |].
    intros [H (k & Hk & Hmac)]. injection H as <-.
    assert (k = pubKx) by congruence. subst k.
    assert (Hsame : Buffer.slice beacon 32 48 = hmac) by congruence.
    apply binary_eqb_iff in Hsame. congruence.
Qed.

Lemma firstMatch_app (pubKe expiration : Buffer.t)
    (before after : list Buffer.t) :
  BeaconSpec.firstMatch local addressBook pubKe expiration before
  = Ok None ->
  BeaconSpec.firstMatch local addressBook pubKe expiration
    (before ++ after)
  = BeaconSpec.firstMatch local addressBook pubKe expiration after.
Proof.
  induction before as [| b bs IH]; intros Hnone; [reflexivity |].
  cbn [app BeaconSpec.firstMatch] in *.
  destruct (BeaconSpec.judge _ _ _ _ b); try discriminate; apply IH, Hnone.
Qed.

(** With a preamble key the ECDH accepts and an address book whose keys
    it accepts, the scan of the beacons ends without an error. *)
Lemma firstMatch_accepted (pubKe expiration : Buffer.t)
    (beacons : list Buffer.t) :
  Beacons.computeSecret local pubKe <> None ->
  (forall keyId pubKx : Buffer.t,
     addressBook keyId = Some pubKx ->
     Beacons.computeSecret local pubKx <> None) ->
  exists answer : option Buffer.t,
    BeaconSpec.firstMatch local addressBook pubKe expiration beacons
    = Ok answer.
Proof.
  intros Hke Hbook. induction beacons as [| b bs IH].
  { exists None. reflexivity. }
  cbn [BeaconSpec.firstMatch].
  pose proof (judge_accepted local addressBook pubKe expiration b Hke Hbook)
    as Hb.
  destruct (BeaconSpec.judge _ _ _ _ b) as [| | p | p | p];
    [congruence | exact IH | exact IH | exact IH |].
  exists (Some p). reflexivity.
Qed.

(** Beacons that are all passed over hold no match. *)
Lemma firstMatch_skipped (pubKe expiration : Buffer.t)
    (beacons : list Buffer.t) :
  (forall b : Buffer.t, In b beacons ->
     BeaconSpec.isSkipped
       (BeaconSpec.judge local addressBook pubKe expiration b) = true) ->
  BeaconSpec.firstMatch local addressBook pubKe expiration beacons
  = Ok None.
Proof.
  induction beacons as [| b bs IH]; intros Hskipped; [reflexivity |].
  cbn [BeaconSpec.firstMatch].
  pose proof (Hskipped b (or_introl eq_refl)) as Hb.
  assert (Hbs : BeaconSpec.firstMatch local addressBook pubKe expiration bs
                = Ok None).
  { apply IH. intros b' Hb'. apply Hskipped. right. exact Hb'. }
  destruct (BeaconSpec.judge _ _ _ _ b); try discriminate; exact Hbs.
Qed.

Lemma wellSized_app (before after : list Buffer.t) :
  BeaconSpec.wellSized before = true ->
  BeaconSpec.wellSized after = true ->
  BeaconSpec.wellSized (before ++ after) = true.
Proof.
  unfold BeaconSpec.wellSized. intros H1 H2.
  rewrite forallb_app. apply andb_true_intro. split; assumption.
Qed.

Lemma beaconLoop_done_le (pubKe expiration s : Buffer.t) (fuel i : nat) :
  (1 <= fuel)%nat -> (length s <= i)%nat ->
  Beacons.beaconLoop s local addressBook pubKe expiration fuel i = Ok None.
Proof.
  intros Hfuel Hle. destruct fuel as [| fuel]; [lia |].
  apply beaconLoop_done, Hle.
Qed.

(** The parser on a valid preamble followed by whole blocks and a tail:
    the first match among the blocks or the error of the ECDH on one of
    them, or the loop on the tail. *)
Lemma parseBeacons_blocks (preamble : Buffer.t)
    (beacons : list Buffer.t) (tail : Buffer.t) :
  BeaconSpec.validPreamble preamble = true ->
  BeaconSpec.wellSized beacons = true ->
  parse (Some (preamble ++ Buffer.concat beacons ++ tail))
  = match BeaconSpec.firstMatch local addressBook
            (BeaconSpec.pubKeOf preamble)
            (BeaconSpec.expirationOf preamble) beacons with
    | Ok None =>
      Beacons.beaconLoop (preamble ++ Buffer.concat beacons ++ tail)
        local addressBook
        (BeaconSpec.pubKeOf preamble) (BeaconSpec.expirationOf preamble)
        (S (length (preamble ++ Buffer.concat beacons ++ tail))
         - length beacons)
        (73 + length (Buffer.concat beacons))
    | answer => answer
    end.
Proof.
  intros Hvalid Hsized.
  rewrite parseBeacons_framed by exact Hvalid.
  pose proof (validPreamble_spec preamble Hvalid) as [Hlen _].
  pose proof (wellSized_length beacons Hsized) as Hblocks.
  pose proof (beaconLoop_blocks local addressBook
                (BeaconSpec.pubKeOf preamble)
                (BeaconSpec.expirationOf preamble)
                beacons Hsized preamble tail
                (S (length (preamble ++ Buffer.concat beacons ++ tail))
                 - length beacons)) as Hloop.
  rewrite Hlen in Hloop.
  replace (length beacons
           + (S (length (preamble ++ Buffer.concat beacons ++ tail))
              - length beacons))%nat
    with (S (length (preamble ++ Buffer.concat beacons ++ tail)))
    in Hloop
    by (rewrite !length_app, Hblocks; lia).
  exact Hloop.
Qed.

(** A valid preamble followed by whole blocks only: the parser answers
    as the scan of the blocks does. *)
Lemma parseBeacons_whole_blocks (preamble : Buffer.t)
    (beacons : list Buffer.t) :
  BeaconSpec.validPreamble preamble = true ->
  BeaconSpec.wellSized beacons = true ->
  parse (Some (preamble ++ Buffer.concat beacons))
  = BeaconSpec.firstMatch local addressBook
      (BeaconSpec.pubKeOf preamble) (BeaconSpec.expirationOf preamble)
      beacons.
Proof.
  intros Hvalid Hsized.
  pose proof (parseBeacons_blocks preamble beacons [] Hvalid Hsized)
    as Hparse.
  rewrite app_nil_r in Hparse. rewrite Hparse.
  destruct (BeaconSpec.firstMatch _ _ _ _ _) as [[plain |] | e];
    [reflexivity | | reflexivity].
  pose proof (validPreamble_spec preamble Hvalid) as [Hlen _].
  pose proof (wellSized_length beacons Hsized) as Hblocks.
  apply beaconLoop_done_le; rewrite length_app; lia.
Qed.

End FirstMatch.

(** C6, as stated, fails: a valid preamble followed by one stray byte
    makes parseBeacons throw 'Malformed encrypted beacon key ID' from
    inside the loop, which is no preamble error. *)
Lemma parseBeacons_block_error_counterexample :
  let s :=
    Beacons.getPublicKey SmallCrypto.ephemeral
    ++ Beacons.expirationBufferOf 3600 ++ [Byte.x00] in
  BeaconSpec.validPreamble (Buffer.slice s 0 73) = true
  /\ Beacons.parseBeacons (Some s) SmallCrypto.bob
       SmallCrypto.emptyAddressBook
     = Err MalformedBeaconKeyId
  /\ malformedPreamble MalformedBeaconKeyId = false.
Proof.
  cbv zeta. split; [vm_compute; reflexivity |].
  split; [vm_compute; reflexivity | reflexivity].
Qed.

(** C6, amended.  After a valid preamble whose public key
    ecdh.computeSecret accepts, and with an address book whose keys it
    accepts, parseBeacons scans the 48-byte blocks from offset 73 in
    stream order and returns the decrypted key id of the first one that
    is judged [matched], that is, whose decryption succeeds, whose key
    id the address book knows, and whose HMAC is the expected one
    ([judge_matched_iff]).  Blocks judged otherwise are skipped and
    raise nothing: on whole blocks the result is never an error.  What
    follows the first match is not examined: the result is the same
    whatever bytes come after it.  Errors are not only thrown for the
    preamble: after such a preamble the parser throws the block-length
    error, and only that one, and only when what follows the preamble is
    not a whole number of 48-byte blocks; it does throw it when the
    blocks are all skipped and are followed by fewer than 48 bytes. *)
Theorem parseBeacons_first_match_wins (C : Beacons.Crypto)
    (local : Beacons.ECDH) (addr : Beacons.addressBookCallback)
    (preamble : Buffer.t) :
  BeaconSpec.validPreamble preamble = true ->
  Beacons.computeSecret local (BeaconSpec.pubKeOf preamble) <> None ->
  (forall keyId pubKx : Buffer.t,
     addr keyId = Some pubKx -> Beacons.computeSecret local pubKx <> None) ->
  (forall beacons : list Buffer.t,
     BeaconSpec.wellSized beacons = true ->
     exists answer : option Buffer.t,
       Beacons.parseBeacons (Some (preamble ++ Buffer.concat beacons))
         local addr
       = Ok answer
       /\ BeaconSpec.firstMatch local addr (BeaconSpec.pubKeOf preamble)
            (BeaconSpec.expirationOf preamble) beacons
          = Ok answer)
  /\ (forall (before : list Buffer.t) (beacon plain tail : Buffer.t),
        BeaconSpec.wellSized before = true ->
        length beacon = 48%nat ->
        (forall b : Buffer.t, In b before ->
           BeaconSpec.isSkipped
             (BeaconSpec.judge local addr (BeaconSpec.pubKeOf preamble)
                (BeaconSpec.expirationOf preamble) b) = true) ->
        BeaconSpec.judge local addr (BeaconSpec.pubKeOf preamble)
          (BeaconSpec.expirationOf preamble) beacon
        = BeaconSpec.matched plain ->
        Beacons.parseBeacons
          (Some (preamble ++ Buffer.concat before ++ beacon ++ tail))
          local addr
        = Ok (Some plain))
  /\ (forall (body : Buffer.t) (e : error),
        Beacons.parseBeacons (Some (preamble ++ body)) local addr = Err e ->
        e = MalformedBeaconKeyId
        /\ ~ exists n : nat, length body = (48 * n)%nat)
  /\ (forall (before : list Buffer.t) (tail : Buffer.t),
        BeaconSpec.wellSized before = true ->
        (forall b : Buffer.t, In b before ->
           BeaconSpec.isSkipped
             (BeaconSpec.judge local addr (BeaconSpec.pubKeOf preamble)
                (BeaconSpec.expirationOf preamble) b) = true) ->
        (0 < length tail < 48)%nat ->
        Beacons.parseBeacons
          (Some (preamble ++ Buffer.concat before ++ tail)) local addr
        = Err MalformedBeaconKeyId).
Proof.
  intros Hvalid Hke Hbook. split; [| split; [| split]].
  - intros beacons Hsized.
    destruct (firstMatch_accepted local addr (BeaconSpec.pubKeOf preamble)
                (BeaconSpec.expirationOf preamble) beacons Hke Hbook)
      as (answer & Hanswer).
    exists answer. split; [| exact Hanswer].
    rewrite parseBeacons_whole_blocks by assumption. exact Hanswer.
  - intros before beacon plain tail Hsized Hlen48 Hskipped Hjudge.
    pose proof (firstMatch_skipped local addr _ _ before Hskipped)
      as Hnone.
    assert (Hsized' : BeaconSpec.wellSized (before ++ [beacon]) = true).
    { apply wellSized_app; [exact Hsized |].
      unfold BeaconSpec.wellSized. cbn [forallb].
      rewrite Hlen48. reflexivity. }
    pose proof (parseBeacons_blocks local addr preamble
                  (before ++ [beacon]) tail Hvalid Hsized') as Hparse.
    rewrite firstMatch_app in Hparse by exact Hnone.
    cbn [BeaconSpec.firstMatch] in Hparse. rewrite Hjudge in Hparse.
    unfold Buffer.concat in *.
    rewrite concat_app in Hparse. cbn [List.concat] in Hparse.
    rewrite app_nil_r, <- app_assoc in Hparse. exact Hparse.
  - intros body e He.
    pose proof (validPreamble_spec preamble Hvalid) as [Hlen _].
    rewrite parseBeacons_framed in He by exact Hvalid.
    pose proof (beaconLoop_fuel local addr (BeaconSpec.pubKeOf preamble)
                  (BeaconSpec.expirationOf preamble) (preamble ++ body)
                  (S (length (preamble ++ body))) 73
                  ltac:(lia) ltac:(rewrite length_app; lia)) as Hfuel.
    destruct (beaconLoop_Err _ _ _ _ _ _ _ _ He)
      as [-> | [(-> & Hlt & Hmod) | (-> & j & _ & Hrej)]].
    + congruence.
    + split; [reflexivity |]. intros (n & Hn). apply Hmod.
      rewrite length_app, Hlen, Hn.
      replace (73 + 48 * n - 73)%nat with (n * 48)%nat by lia.
      apply Nat.Div0.mod_mul.
    + exfalso. revert Hrej. apply judge_accepted; assumption.
  - intros before tail Hsized Hskipped Htail.
    pose proof (validPreamble_spec preamble Hvalid) as [Hlen _].
    pose proof (wellSized_length before Hsized) as Hblocks.
    rewrite parseBeacons_blocks by assumption.
    rewrite firstMatch_skipped by exact Hskipped.
    destruct (S (length (preamble ++ Buffer.concat before ++ tail))
              - length before)%nat as [| fuel] eqn:Hfuel.
    { rewrite !length_app, Hblocks in Hfuel. lia. }
    apply beaconLoop_truncated.
    rewrite !length_app, Hlen, Hblocks. lia.
Qed.

(** Alice notifies Dave, Carol, Bob and Bob again, and a byte of the
    HMAC of the third block is overwritten on the way.  Read by Bob, the
    block for Dave fails to decrypt, the block for Carol decrypts to a key
    id the address book does not know, the third block has the wrong HMAC,
    and the fourth gives Alice's key id; so does the stream cut in the
    middle of a fifth block.  The same stream cut in the middle of its
    second block throws the block-length error. *)
Lemma parseBeacons_first_match_wins_witness :
  let s :=
    <[209%nat := Byte.x00]>
      (SmallCrypto.streamOf
         (Beacons.generatePreambleAndBeacons
            (Some [Beacons.getPublicKey SmallCrypto.dave;
                   Beacons.getPublicKey SmallCrypto.carol;
                   Beacons.getPublicKey SmallCrypto.bob;
                   Beacons.getPublicKey SmallCrypto.bob])
            (Some SmallCrypto.alice) SmallCrypto.ephemeral 3600)) in
  let addr :=
    SmallCrypto.addressBookOf
      (map Beacons.getPublicKey [SmallCrypto.alice]) in
  let keyId :=
    Beacons.createPublicKeyHash (Beacons.getPublicKey SmallCrypto.alice) in
  let judge :=
    BeaconSpec.judge SmallCrypto.bob addr
      (Buffer.slice s 0 65) (Buffer.slice s 65 73) in
  judge (Buffer.slice s 73 121) = BeaconSpec.decryptFailed
  /\ BeaconSpec.isSkipped (judge (Buffer.slice s 121 169)) = true
  /\ judge (Buffer.slice s 169 217) = BeaconSpec.hmacMismatch keyId
  /\ Beacons.parseBeacons (Some s) SmallCrypto.bob addr = Ok (Some keyId)
  /\ Beacons.parseBeacons (Some (s ++ take 20 s)) SmallCrypto.bob addr
     = Ok (Some keyId)
  /\ Beacons.parseBeacons (Some (take 150 s)) SmallCrypto.bob addr
     = Err MalformedBeaconKeyId.
Proof.
  cbv zeta.
  set (s := <[209%nat := Byte.x00]> _).
  set (addr := SmallCrypto.addressBookOf _).
  pose proof (parseBeacons_first_match_wins SmallCrypto.crypto
                SmallCrypto.bob addr (Buffer.slice s 0 73)
                ltac:(vm_compute; reflexivity)
                ltac:(vm_compute; discriminate)
                (addressBookOf_accepted SmallCrypto.bob [SmallCrypto.alice]))
    as (Hall & Hcut & Herr & _).
  split; [vm_compute; reflexivity |].
  split; [vm_compute; reflexivity |].
  split; [vm_compute; reflexivity |].
  split; [| split].
  - destruct (Hall [Buffer.slice s 73 121; Buffer.slice s 121 169;
                    Buffer.slice s 169 217; Buffer.slice s 217 265]
                ltac:(vm_compute; reflexivity)) as (answer & Hparse & Hfirst).
    assert (Hanswer : Ok answer
                      = Ok (Some (Beacons.createPublicKeyHash
                                    (C := SmallCrypto.crypto)
                                    (Beacons.getPublicKey SmallCrypto.alice)))).
    { etransitivity; [symmetry; exact Hfirst |]. vm_compute. reflexivity. }
    injection Hanswer as ->.
    etransitivity; [| exact Hparse]. vm_compute. reflexivity.
  - pose proof (Hcut [Buffer.slice s 73 121; Buffer.slice s 121 169;
                      Buffer.slice s 169 217]
                  (Buffer.slice s 217 265)
                  (Beacons.createPublicKeyHash
                     (Beacons.getPublicKey SmallCrypto.alice))
                  (take 20 s)
                  ltac:(vm_compute; reflexivity)
                  ltac:(vm_compute; reflexivity)) as H.
    etransitivity; [| apply H]; [vm_compute; reflexivity | |].
    + intros b [<- | [<- | [<- | []]]]; vm_compute; reflexivity.
    + vm_compute. reflexivity.
  - destruct (Beacons.parseBeacons (Some (take 150 s)) SmallCrypto.bob addr)
      as [answer | e] eqn:Hparse.
    { vm_compute in Hparse. discriminate. }
    assert (Hsplit : take 150 s
                     = Buffer.slice s 0 73 ++ Buffer.slice s 73 150)
      by (vm_compute; reflexivity).
    rewrite Hsplit in Hparse.
    destruct (Herr _ _ Hparse) as [-> _]. reflexivity.
Defined.

(* ===================================================================== *)
(** * The admission middleware of the manager                             *)
(* ===================================================================== *)

(** C3.  On a connection that is not authorized the first middleware
    does not respond: it sets the status code to 401 and then throws a
    ReferenceError on [msg401], which is declared nowhere; nothing is
    sent, no role is written and next() is not called.  On an authorized
    connection it calls next() with a request whose connection carries
    the role 'beacon' when the secret of the PSK identity is the
    BEACON_KEY, 'replication' for any other secret, 'public' when the
    identity has no secret, and whose other fields are as they came. *)
Theorem assignRole_roles (getPskIdToSecret : option string ->
                          option Manager.secret) (req : Manager.request) :
  (Manager.authorized (Manager.conn req) = false ->
     Manager.assignRole getPskIdToSecret req
     = Manager.throws (Manager.ReferenceError "msg401") 401 req
     /\ forall (status : nat) (req' : Manager.request),
          Manager.assignRole getPskIdToSecret req
          <> Manager.send status req')
  /\ (Manager.authorized (Manager.conn req) = true ->
      exists req' : Manager.request,
        Manager.assignRole getPskIdToSecret req = Manager.next req'
        /\ Manager.pskRole (Manager.conn req')
           = Some (match getPskIdToSecret
                           (Manager.pskIdentity (Manager.conn req)) with
                   | Some Manager.BEACON_KEY => Manager.beacon
                   | Some (Manager.pskSecret _) => Manager.replication
                   | None => Manager.public
                   end)
        /\ Manager.authorized (Manager.conn req') = true
        /\ Manager.pskIdentity (Manager.conn req')
           = Manager.pskIdentity (Manager.conn req)
        /\ Manager.method req' = Manager.method req
        /\ Manager.path req' = Manager.path req).
Proof.
  unfold Manager.assignRole. split.
  - intros ->. split; [reflexivity | discriminate].
  - intros Hauth. rewrite Hauth.
    destruct (getPskIdToSecret _) as [[| key] |];
      eexists; (split; [reflexivity |]); cbn; auto.
Qed.

(** The four cases on the sample tables: an unauthorized connection, the
    identities "beacons" and "bob", and an unknown identity. *)
Lemma assignRole_roles_witness :
  let request a i :=
    {| Manager.conn := {| Manager.authorized := a;
                          Manager.pskIdentity := Some i;
                          Manager.pskRole := None |};
       Manager.method := Manager.GET;
       Manager.path := ["NotificationBeacons"%string] |} in
  let assigned a i r :=
    exists req' : Manager.request,
      Manager.assignRole Manager.sampleSecrets (request a i)
      = Manager.next req'
      /\ Manager.pskRole (Manager.conn req') = Some r in
  Manager.assignRole Manager.sampleSecrets (request false "beacons"%string)
  = Manager.throws (Manager.ReferenceError "msg401") 401
      (request false "beacons"%string)
  /\ assigned true "beacons"%string Manager.beacon
  /\ assigned true "bob"%string Manager.replication
  /\ assigned true "eve"%string Manager.public.
Proof.
  cbv zeta. split; [| split; [| split]].
  - match goal with
    | |- Manager.assignRole _ ?r = _ =>
      apply (proj1 (assignRole_roles Manager.sampleSecrets r))
    end.
    reflexivity.
  - match goal with
    | |- exists _, Manager.assignRole _ ?r = _ /\ _ =>
      destruct (proj2 (assignRole_roles Manager.sampleSecrets r) eq_refl)
        as (req' & Hnext & Hrole & _)
    end.
    exists req'. split; [exact Hnext | exact Hrole].
  - match goal with
    | |- exists _, Manager.assignRole _ ?r = _ /\ _ =>
      destruct (proj2 (assignRole_roles Manager.sampleSecrets r) eq_refl)
        as (req' & Hnext & Hrole & _)
    end.
    exists req'. split; [exact Hnext | exact Hrole].
  - match goal with
    | |- exists _, Manager.assignRole _ ?r = _ /\ _ =>
      destruct (proj2 (assignRole_roles Manager.sampleSecrets r) eq_refl)
        as (req' & Hnext & Hrole & _)
    end.
    exists req'. split; [exact Hnext | exact Hrole].
Defined.

(** The gate passes the request on as it received it, or answers 403. *)
Lemma aclGate_outcome (getPskIdToPublicKey : option string -> option Buffer.t)
    (prefix dbName : string) (req : Manager.request) :
  Manager.aclGate getPskIdToPublicKey prefix dbName req
  = Manager.next req
  \/ Manager.aclGate getPskIdToPublicKey prefix dbName req
     = Manager.send 403 req.
Proof.
  unfold Manager.aclGate.
  destruct (Manager.pskRole (Manager.conn req)) as [r |]; [| right; reflexivity].
  destruct (Manager.capturedId _) as [thaliId |].
  - destruct (Manager.thaliIdCallback _ _ _); [left | right]; reflexivity.
  - destruct (Manager.matches _ _ _ _); [right | left]; reflexivity.
Qed.

(** C10.  Whatever the tables and the database router, a request enters
    the layers of the router in the order role assignment, ACL gate,
    database router.  At the ACL gate and at the database router its
    connection is authorized and carries exactly the role the first
    middleware assigned for the secret of its PSK identity.  A request
    on an unauthorized connection enters the first layer only: that
    handler throws, and neither the ACL gate nor the database router
    sees the request. *)
Theorem router_stages
    (getPskIdToSecret : option string -> option Manager.secret)
    (getPskIdToPublicKey : option string -> option Buffer.t)
    (prefix basePath dbName : string)
    (expressPouchDB : Manager.request -> Manager.outcome)
    (req : Manager.request) :
  let result :=
    Manager.dispatch
      (Manager.router getPskIdToSecret getPskIdToPublicKey prefix basePath
         dbName expressPouchDB) req in
  (map fst (fst result) = [Manager.RoleAssignment]
   \/ map fst (fst result) = [Manager.RoleAssignment; Manager.AclGate]
   \/ map fst (fst result)
      = [Manager.RoleAssignment; Manager.AclGate; Manager.DatabaseRouter])
  /\ (forall (st : Manager.stage) (r : Manager.request),
        In (st, r) (fst result) -> st <> Manager.RoleAssignment ->
        Manager.authorized (Manager.conn r) = true
        /\ Manager.pskRole (Manager.conn r)
           = Some (match getPskIdToSecret
                           (Manager.pskIdentity (Manager.conn req)) with
                   | Some Manager.BEACON_KEY => Manager.beacon
                   | Some (Manager.pskSecret _) => Manager.replication
                   | None => Manager.public
                   end))
  /\ (Manager.authorized (Manager.conn req) = false ->
      result = ([(Manager.RoleAssignment, req)],
                Manager.failed (Manager.ReferenceError "msg401") 401)).
Proof.
  cbv zeta. unfold Manager.router.
  cbn [Manager.dispatch Manager.all Manager.use Manager.mounted
       Manager.handle Manager.name].
  unfold Manager.assignRole.
  destruct (Manager.authorized (Manager.conn req)) eqn:Hauth.
  2: { cbn. split; [left; reflexivity |].
       split; [| reflexivity].
       intros st r [H | []] Hst. injection H as <- _. congruence. }
  set (assigned := match getPskIdToSecret
                           (Manager.pskIdentity (Manager.conn req)) with
                   | Some Manager.BEACON_KEY => Manager.beacon
                   | Some (Manager.pskSecret _) => Manager.replication
                   | None => Manager.public
                   end).
  assert (Hnext :
    match getPskIdToSecret (Manager.pskIdentity (Manager.conn req)) with
    | Some Manager.BEACON_KEY =>
      Manager.next (Manager.withRole req Manager.beacon)
    | Some (Manager.pskSecret _) =>
      Manager.next (Manager.withRole req Manager.replication)
    | None => Manager.next (Manager.withRole req Manager.public)
    end = Manager.next (Manager.withRole req assigned)).
  { subst assigned.
    destruct (getPskIdToSecret _) as [[| key] |]; reflexivity. }
  rewrite Hnext. clear Hnext.
  set (req1 := Manager.withRole req assigned).
  assert (Hreq1 : Manager.authorized (Manager.conn req1) = true
                  /\ Manager.pskRole (Manager.conn req1) = Some assigned).
  { subst req1. cbn. auto. }
  destruct (aclGate_outcome getPskIdToPublicKey prefix dbName req1)
    as [Hgate | Hgate]; rewrite Hgate.
  2: { cbn. split; [right; left; reflexivity |].
       split; [| discriminate].
       intros st r [H | [H | []]] Hst; injection H as <- <-;
         [congruence | exact Hreq1]. }
  destruct (match Manager.path req1 with
            | [] => false
            | x :: _ => (basePath =? String "/" x)%string
            end).
  - destruct (expressPouchDB req1) as [req2 | status req2 | e status req2];
      cbn.
    all: split; [right; right; reflexivity |].
    all: split; [| discriminate].
    all: intros st r [H | [H | [H | []]]] Hst; injection H as <- <-;
      [congruence | exact Hreq1 | exact Hreq1].
  - cbn. split; [right; left; reflexivity |].
    split; [| discriminate].
    intros st r [H | [H | []]] Hst; injection H as <- <-;
      [congruence | exact Hreq1].
Qed.

(** The sample router on three requests of "bob": a document of the
    database, the beacons, and the same document on an unauthorized
    connection. *)
Lemma router_stages_witness :
  let bobKey := Beacons.getPublicKey SmallCrypto.bob in
  let stages req :=
    (map fst (fst (Manager.dispatch (Manager.sampleRouter bobKey) req)),
     snd (Manager.dispatch (Manager.sampleRouter bobKey) req)) in
  stages (Manager.requestOfBob Manager.GET ["db"; "doc1"]%string)
  = ([Manager.RoleAssignment; Manager.AclGate; Manager.DatabaseRouter],
     Manager.responded 200)
  /\ stages (Manager.requestOfBob Manager.GET ["NotificationBeacons"]%string)
     = ([Manager.RoleAssignment; Manager.AclGate], Manager.responded 403)
  /\ Manager.dispatch (Manager.sampleRouter bobKey)
       {| Manager.conn := {| Manager.authorized := false;
                             Manager.pskIdentity := Some "bob"%string;
                             Manager.pskRole := Some Manager.replication |};
          Manager.method := Manager.GET;
          Manager.path := ["db"; "doc1"]%string |}
     = ([(Manager.RoleAssignment,
          {| Manager.conn := {| Manager.authorized := false;
                                Manager.pskIdentity := Some "bob"%string;
                                Manager.pskRole := Some Manager.replication |};
             Manager.method := Manager.GET;
             Manager.path := ["db"; "doc1"]%string |})],
        Manager.failed (Manager.ReferenceError "msg401") 401).
Proof.
  cbv zeta. split; [vm_compute; reflexivity |].
  split; [vm_compute; reflexivity |].
  apply (proj2 (proj2 (router_stages Manager.sampleSecrets
                  (Manager.samplePublicKeys
                     (Beacons.getPublicKey SmallCrypto.bob))
                  "thali_" "/db" "db"
                  (fun req => Manager.send 200 req) _))).
  reflexivity.
Defined.

(** The callback handed to salti accepts an id exactly when it is the
    text of the caller's public key itself: no hash is taken. *)
Lemma thaliIdCallback_iff
    (getPskIdToPublicKey : option string -> option Buffer.t)
    (thaliId : string) (req : Manager.request) :
  Manager.thaliIdCallback getPskIdToPublicKey thaliId req = true
  <-> exists publicKey : Buffer.t,
        getPskIdToPublicKey (Manager.pskIdentity (Manager.conn req))
        = Some publicKey
        /\ Buffer.toString publicKey = Some thaliId.
Proof.
  unfold Manager.thaliIdCallback, Manager.looseEquals.
  destruct (getPskIdToPublicKey _) as [publicKey |].
  - destruct (Buffer.toString publicKey) as [text |] eqn:Htext.
    + rewrite String.eqb_eq. split.
      * intros ->. exists publicKey. auto.
      * intros (k & Hk & Hid). congruence.
    + split; [discriminate | intros (k & Hk & Hid); congruence].
  - split; [discriminate | intros (k & Hk & _); discriminate].
Qed.

(** [substring] from the start over the whole length. *)
Lemma substring_whole (s : string) :
  substring 0 (String.length s) s = s.
Proof.
  induction s as [| c s IH]; [reflexivity |].
  cbn [String.length substring]. rewrite IH. reflexivity.
Qed.

(** On PUT /db/_local/thali_<id> from a 'replication' connection the
    sample gate asks the callback about <id> and nothing else. *)
Lemma sampleGate_local (bobKey : Buffer.t) (thaliId : string) :
  let req :=
    Manager.withRole
      (Manager.requestOfBob Manager.PUT
         ["db"; "_local"; String.append "thali_" thaliId]%string)
      Manager.replication in
  Manager.sampleGate bobKey req
  = if Manager.thaliIdCallback (Manager.samplePublicKeys bobKey) thaliId req
    then Manager.next req else Manager.send 403 req.
Proof.
  cbv zeta. unfold Manager.sampleGate, Manager.aclGate.
  change (String.append "thali_" thaliId)
    with (String "t" (String "h" (String "a" (String "l"
            (String "i" (String "_" thaliId)))))).
  cbn -[Manager.thaliIdCallback].
  assert (Hprefix : String.prefix "" thaliId = true)
    by (destruct thaliId; reflexivity).
  rewrite Hprefix, Nat.sub_0_r, substring_whole. reflexivity.
Qed.

(** C2.  A 'replication' request of "bob" for
    PUT /db/_local/thali_<id> is let through exactly when <id> is the
    text of Bob's public key, String(publicKey): with <id> the hash of
    the key (createPublicKeyHash) the gate answers 403, and with <id>
    the text of the whole public key it lets the request through. *)
Theorem aclGate_compares_public_key :
  let bobKey := Beacons.getPublicKey SmallCrypto.bob in
  let request thaliId :=
    Manager.withRole
      (Manager.requestOfBob Manager.PUT
         ["db"; "_local"; String.append "thali_" thaliId]%string)
      Manager.replication in
  let hashed :=
    Buffer.toBinaryString (Beacons.createPublicKeyHash bobKey) in
  Manager.samplePublicKeys bobKey
    (Manager.pskIdentity (Manager.conn (request hashed))) = Some bobKey
  /\ Manager.sampleGate bobKey (request hashed)
     = Manager.send 403 (request hashed)
  /\ (exists keyText : string,
        Buffer.toString bobKey = Some keyText
        /\ Manager.sampleGate bobKey (request keyText)
           = Manager.next (request keyText))
  /\ (forall thaliId : string,
        Manager.sampleGate bobKey (request thaliId)
        = Manager.next (request thaliId)
        <-> Buffer.toString bobKey = Some thaliId).
Proof.
  cbv zeta. split; [reflexivity |].
  split; [vm_compute; reflexivity |].
  split; [eexists; split; vm_compute; reflexivity |].
  intros thaliId.
  pose proof (sampleGate_local (Beacons.getPublicKey SmallCrypto.bob) thaliId)
    as Hgate.
  cbv zeta in Hgate. rewrite Hgate. clear Hgate.
  destruct (Manager.thaliIdCallback _ _ _) eqn:Hcall.
  - apply thaliIdCallback_iff in Hcall.
    destruct Hcall as (k & Hk & Htext).
    cbn in Hk. injection Hk as <-. split; [intros _; exact Htext | reflexivity].
  - split; [discriminate |]. intros Htext.
    assert (Hyes : Manager.thaliIdCallback
                     (Manager.samplePublicKeys
                        (Beacons.getPublicKey SmallCrypto.bob)) thaliId
                     (Manager.withRole
                        (Manager.requestOfBob Manager.PUT
                           ["db"; "_local";
                            String.append "thali_" thaliId]%string)
                        Manager.replication) = true).
    { apply thaliIdCallback_iff.
      exists (Beacons.getPublicKey SmallCrypto.bob). auto. }
    congruence.
Qed.

(* ===================================================================== *)
(** * Debounce in the peer registry                                       *)
(* ===================================================================== *)








(** When the unavailability timer fires between the two observations the
    peer is announced again: the two events are no longer consecutive. *)
Lemma duplicate_after_timer :
  map Registry.statusAvailable
    (snd (Registry.run Registry.testConfig
            [Registry.raw 0 Registry.nativePeer;
             Registry.timer (Registry.keyOf Registry.nativePeer);
             Registry.raw 1 Registry.nativePeer] ∅))
  = [true; false; true].
Proof. vm_compute. reflexivity. Qed.

(* ===================================================================== *)
(** * The layout of a generated stream                                    *)
(* ===================================================================== *)

Section GeneratedStream.
Context {C : Beacons.Crypto}.

(** A stream is returned only for a non-empty list and an expiration
    within 0 .. ONE_DAY, and then it is the preamble followed by one
    beacon per key. *)
Lemma generate_Some_inv (publicKeys : list Buffer.t)
    (ecdh ke : Beacons.ECDH) (t : Z) (s : Buffer.t) :
  Beacons.generatePreambleAndBeacons (Some publicKeys) (Some ecdh) ke t
  = Ok (Some s) ->
  publicKeys <> [] /\ 0 <= t <= Beacons.ONE_DAY
  /\ exists beacons : list Buffer.t,
       Forall2
         (fun pubKy beacon =>
            Beacons.beaconFor ecdh ke (Beacons.expirationBufferOf t)
              (Beacons.createPublicKeyHash (Beacons.getPublicKey ecdh))
              pubKy = Ok beacon)
         publicKeys beacons
       /\ s = (Beacons.getPublicKey ke ++ Beacons.expirationBufferOf t)
              ++ Buffer.concat beacons.
Proof.
  intros Hgen.
  assert (Hrange : 0 <= t <= Beacons.ONE_DAY).
  { unfold Beacons.generatePreambleAndBeacons in Hgen.
    destruct (Z.ltb_spec t 0); [discriminate |].
    destruct (Z.gtb_spec t Beacons.ONE_DAY); [discriminate | lia]. }
  assert (Hne : publicKeys <> []).
  { intros ->. unfold Beacons.generatePreambleAndBeacons in Hgen.
    destruct (Z.ltb_spec t 0); [lia |].
    destruct (Z.gtb_spec t Beacons.ONE_DAY); [lia |].
    discriminate. }
  rewrite generate_stream in Hgen by assumption.
  destruct (Beacons.forEach _ _) as [beacons | e] eqn:Hpushed;
    [| discriminate].
  injection Hgen as <-.
  split; [exact Hne |]. split; [exact Hrange |].
  exists beacons. split; [apply forEach_Ok_inv, Hpushed | reflexivity].
Qed.

Lemma generated_beacons_wellSized (L : Beacons.CryptoLaws C)
    (ecdh ke : Beacons.ECDH) (expiration : Buffer.t)
    (publicKeys beacons : list Buffer.t) :
  Forall2
    (fun pubKy beacon =>
       Beacons.beaconFor ecdh ke expiration
         (Beacons.createPublicKeyHash (Beacons.getPublicKey ecdh))
         pubKy = Ok beacon)
    publicKeys beacons ->
  BeaconSpec.wellSized beacons = true.
Proof.
  induction 1 as [| k b ks bs Hb _ IH]; [reflexivity |].
  unfold BeaconSpec.wellSized in *. cbn [forallb].
  rewrite (beaconFor_length L _ _ _ _ _ Hb).
  cbn. exact IH.
Qed.

Lemma Forall2_nth_error {A B : Type} (P : A -> B -> Prop)
    (l : list A) (k : list B) :
  Forall2 P l k ->
  forall (i : nat) (x : A),
    nth_error l i = Some x ->
    exists y : B, nth_error k i = Some y /\ P x y.
Proof.
  induction 1 as [| x0 y0 l k Hxy _ IH]; intros i x Hnth.
  { destruct i; discriminate. }
  destruct i as [| i].
  - cbn in Hnth. injection Hnth as <-. exists y0. auto.
  - cbn [nth_error] in *. apply IH, Hnth.
Qed.

(** The block number [i] of a run of 48-byte blocks. *)
Lemma block_slice (beacons : list Buffer.t) :
  BeaconSpec.wellSized beacons = true ->
  forall (pre : Buffer.t) (i : nat) (beacon : Buffer.t),
    nth_error beacons i = Some beacon ->
    Buffer.slice (pre ++ Buffer.concat beacons)
      (length pre + 48 * i) (length pre + 48 * i + 48) = beacon.
Proof.
  induction beacons as [| b bs IH]; intros Hsized pre i beacon Hnth.
  { destruct i; discriminate. }
  apply wellSized_cons in Hsized. destruct Hsized as [Hb Hbs].
  unfold Buffer.concat in *. cbn [List.concat].
  destruct i as [| i].
  - cbn in Hnth. injection Hnth as <-.
    rewrite Nat.mul_0_r, Nat.add_0_r.
    rewrite <- (Nat.add_0_r (length pre)) at 1.
    rewrite slice_shift. apply slice_app_l, Hb.
  - cbn [nth_error] in Hnth.
    specialize (IH Hbs (pre ++ b) i beacon Hnth).
    rewrite length_app, Hb in IH.
    rewrite <- app_assoc in IH.
    replace (length pre + 48 * S i)%nat
      with (length pre + 48 + 48 * i)%nat by lia.
    exact IH.
Qed.

End GeneratedStream.

(** X1.  Whenever generatePreambleAndBeacons returns a stream, the list of
    keys was not empty, the stream has 73 + 48 n bytes for its n keys,
    its first 65 bytes are the ephemeral public key, the next 8 read back
    as the expiration that was asked for, and the 48 bytes at offset
    73 + 48 i are the beacon of the i-th key. *)
Theorem generated_stream_layout (C : Beacons.Crypto)
    (L : Beacons.CryptoLaws C) (publicKeys : list Buffer.t)
    (ecdh ke : Beacons.ECDH) (t : Z) (s : Buffer.t) :
  Beacons.generatePreambleAndBeacons (Some publicKeys) (Some ecdh) ke t
  = Ok (Some s) ->
  publicKeys <> []
  /\ length s = (73 + 48 * length publicKeys)%nat
  /\ Buffer.slice s 0 65 = Beacons.getPublicKey ke
  /\ Beacons.expirationNumber (Buffer.slice s 65 73) = t
  /\ forall (i : nat) (pubKy : Buffer.t),
       nth_error publicKeys i = Some pubKy ->
       Beacons.beaconFor ecdh ke (Buffer.slice s 65 73)
         (Beacons.createPublicKeyHash (Beacons.getPublicKey ecdh))
         pubKy
       = Ok (Buffer.slice s (73 + 48 * i) (73 + 48 * i + 48)).
Proof.
  intros Hgen.
  destruct (generate_Some_inv publicKeys ecdh ke t s Hgen)
    as (Hne & Hrange & beacons & Hbeacons & ->).
  destruct (generated_preamble_valid L ke t Hrange)
    as (Hvalid & HpubKe & Hexp).
  pose proof (validPreamble_spec _ Hvalid) as [Hlen _].
  pose proof (generated_beacons_wellSized L ecdh ke
                (Beacons.expirationBufferOf t) publicKeys beacons Hbeacons)
    as Hsized.
  set (preamble := Beacons.getPublicKey ke ++ Beacons.expirationBufferOf t)
    in *.
  assert (Hexp' : Buffer.slice (preamble ++ Buffer.concat beacons) 65 73
                  = Beacons.expirationBufferOf t).
  { rewrite slice_app_le by lia. exact Hexp. }
  split; [exact Hne |]. split.
  { rewrite length_app, Hlen, wellSized_length by exact Hsized.
    rewrite (Forall2_length _ _ _ Hbeacons). reflexivity. }
  split; [rewrite slice_app_le by lia; exact HpubKe |].
  split.
  { rewrite Hexp'. apply expirationNumber_expirationBufferOf.
    unfold Beacons.ONE_DAY in Hrange. lia. }
  intros i pubKy Hnth. rewrite Hexp'.
  destruct (Forall2_nth_error _ _ _ Hbeacons i pubKy Hnth)
    as (beacon & Hbeacon & Hmade).
  rewrite Hmade. f_equal. symmetry.
  rewrite <- Hlen.
  apply (block_slice _ Hsized preamble i). exact Hbeacon.
Qed.

(** Alice's stream for Carol and Bob: 169 bytes, and the second block is
    the beacon made for Bob. *)
Lemma generated_stream_layout_witness :
  let s :=
    SmallCrypto.streamOf
      (Beacons.generatePreambleAndBeacons
         (Some [Beacons.getPublicKey SmallCrypto.carol;
                Beacons.getPublicKey SmallCrypto.bob])
         (Some SmallCrypto.alice) SmallCrypto.ephemeral 3600) in
  length s = 169%nat
  /\ Beacons.expirationNumber (Buffer.slice s 65 73) = 3600
  /\ Beacons.beaconFor SmallCrypto.alice SmallCrypto.ephemeral
       (Buffer.slice s 65 73)
       (Beacons.createPublicKeyHash
          (Beacons.getPublicKey SmallCrypto.alice))
       (Beacons.getPublicKey SmallCrypto.bob)
     = Ok (Buffer.slice s 121 169).
Proof.
  cbv zeta.
  destruct (generated_stream_layout SmallCrypto.crypto small_laws
              [Beacons.getPublicKey SmallCrypto.carol;
               Beacons.getPublicKey SmallCrypto.bob]
              SmallCrypto.alice SmallCrypto.ephemeral 3600
              (SmallCrypto.streamOf
                 (Beacons.generatePreambleAndBeacons
                    (Some [Beacons.getPublicKey SmallCrypto.carol;
                           Beacons.getPublicKey SmallCrypto.bob])
                    (Some SmallCrypto.alice) SmallCrypto.ephemeral 3600))
              ltac:(vm_compute; reflexivity))
    as (_ & Hlen & _ & Hexp & Hblock).
  split; [exact Hlen |]. split; [exact Hexp |].
  exact (Hblock 1%nat (Beacons.getPublicKey SmallCrypto.bob) eq_refl).
Defined.

(* ===================================================================== *)
(** * Parsing what was generated                                          *)
(* ===================================================================== *)

Section ParseGenerated.
Context {C : Beacons.Crypto}.
Variable local : Beacons.ECDH.
Variable addressBook : Beacons.addressBookCallback.

(** With an address book that knows nobody, no beacon is a match. *)
Lemma firstMatch_unknown (pubKe expiration : Buffer.t)
    (beacons : list Buffer.t) :
  Beacons.computeSecret local pubKe <> None ->
  (forall h, addressBook h = None) ->
  BeaconSpec.firstMatch local addressBook pubKe expiration beacons
  = Ok None.
Proof.
  intros Hke Hnobody. induction beacons as [| b bs IH]; [reflexivity |].
  cbn [BeaconSpec.firstMatch]. unfold BeaconSpec.judge.
  destruct (Beacons.computeSecret local pubKe) as [sey |];
    [| congruence].
  destruct (BeaconSpec.decrypt local pubKe expiration b) as [plain |];
    [| exact IH].
  rewrite Hnobody. exact IH.
Qed.

(** When every complete block is passed over, the loop ends in null
    after whole blocks and in the block error on a truncated tail. *)
Lemma beaconLoop_unmatched (pubKe expiration s : Buffer.t)
    (fuel i : nat) :
  (forall j : nat, (i + 48 * j + 48 <= length s)%nat ->
     BeaconSpec.isSkipped
       (BeaconSpec.judge local addressBook pubKe expiration
          (Buffer.slice s (i + 48 * j) (i + 48 * j + 48))) = true) ->
  (1 <= fuel)%nat -> (length s <= i + 48 * (fuel - 1))%nat ->
  Beacons.beaconLoop s local addressBook pubKe expiration fuel i
  = if ((length s <=? i) || ((length s - i) mod 48 =? 0))%nat
    then Ok None else Err MalformedBeaconKeyId.
Proof.
  revert i. induction fuel as [| fuel IH]; intros i Hnone H1 Hlen; [lia |].
  destruct (Nat.le_gt_cases (length s) i) as [Hdone | Hmore].
  { rewrite beaconLoop_done by lia.
    destruct (Nat.leb_spec (length s) i); [reflexivity | lia]. }
  destruct (Nat.leb_spec (length s) i) as [| _]; [lia |]. cbn [orb].
  destruct (Nat.le_gt_cases (i + 48) (length s)) as [Hfull | Hshort].
  - rewrite beaconLoop_judge by lia.
    pose proof (Hnone 0%nat) as H0.
    rewrite Nat.mul_0_r, Nat.add_0_r in H0. specialize (H0 Hfull).
    assert (Hnext :
      Beacons.beaconLoop s local addressBook pubKe expiration fuel (i + 48)
      = if ((length s <=? i + 48) || ((length s - (i + 48)) mod 48 =? 0))%nat
        then Ok None else Err MalformedBeaconKeyId).
    { apply IH; [| lia | lia].
      intros j Hj.
      replace (i + 48 + 48 * j)%nat with (i + 48 * S j)%nat by lia.
      apply Hnone. lia. }
    assert (Hmod : ((length s <=? i + 48) || ((length s - (i + 48)) mod 48 =? 0)
                    = ((length s - i) mod 48 =? 0))%nat).
    { replace (length s - i)%nat with (length s - (i + 48) + 1 * 48)%nat
        by lia.
      rewrite Nat.Div0.mod_add.
      destruct (Nat.leb_spec (length s) (i + 48)); [| reflexivity].
      replace (length s - (i + 48))%nat with 0%nat by lia. reflexivity. }
    rewrite Hmod in Hnext.
    destruct (BeaconSpec.judge _ _ _ _ _); try exact Hnext; discriminate.
  - rewrite beaconLoop_truncated by lia.
    rewrite Nat.mod_small by lia.
    destruct (Nat.eqb_spec (length s - i) 0); [lia | reflexivity].
Qed.

End ParseGenerated.

(** The generator makes a stream for the public keys of key pairs. *)
Lemma generate_for_keyPairs (C : Beacons.Crypto) (L : Beacons.CryptoLaws C)
    (recipients : list Beacons.ECDH) (ecdh ke : Beacons.ECDH) (t : Z) :
  recipients <> [] -> 0 <= t <= Beacons.ONE_DAY ->
  exists beacons : list Buffer.t,
    Beacons.generatePreambleAndBeacons
      (Some (map Beacons.getPublicKey recipients)) (Some ecdh) ke t
    = Ok (Some ((Beacons.getPublicKey ke ++ Beacons.expirationBufferOf t)
                ++ Buffer.concat beacons))
    /\ Forall2
         (fun pubKy beacon =>
            Beacons.beaconFor ecdh ke (Beacons.expirationBufferOf t)
              (Beacons.createPublicKeyHash (Beacons.getPublicKey ecdh))
              pubKy = Ok beacon)
         (map Beacons.getPublicKey recipients) beacons.
Proof.
  intros Hne Hrange.
  destruct (forEach_succeeds
              (Beacons.beaconFor ecdh ke (Beacons.expirationBufferOf t)
                 (Beacons.createPublicKeyHash (Beacons.getPublicKey ecdh)))
              (map Beacons.getPublicKey recipients))
    as (beacons & Hpushed).
  { intros x Hx. apply in_map_iff in Hx. destruct Hx as (r & <- & _).
    apply beaconFor_keyPair, L. }
  exists beacons. split; [| apply forEach_Ok_inv, Hpushed].
  rewrite generate_stream; [rewrite Hpushed; reflexivity | | exact Hrange].
  destruct recipients; [congruence | discriminate].
Qed.

(** X2.  parseBeacons does not throw on what generatePreambleAndBeacons
    returns for public keys of key pairs: for any list of key pairs to
    notify, any sender, any expiration within 0 .. ONE_DAY, any reader
    and any address book whose keys ecdh.computeSecret accepts, the
    generator returns null or a stream and the parser answers it with a
    key id or null; and with an address book that knows nobody the
    answer is null. *)
Theorem parse_generated_never_throws (C : Beacons.Crypto)
    (L : Beacons.CryptoLaws C) (recipients : list Beacons.ECDH)
    (ecdh ke local : Beacons.ECDH) (t : Z)
    (addr : Beacons.addressBookCallback) :
  0 <= t <= Beacons.ONE_DAY ->
  (forall keyId pubKx : Buffer.t,
     addr keyId = Some pubKx -> Beacons.computeSecret local pubKx <> None) ->
  exists (generated answer : option Buffer.t),
    Beacons.generatePreambleAndBeacons
      (Some (map Beacons.getPublicKey recipients)) (Some ecdh) ke t
    = Ok generated
    /\ Beacons.parseBeacons generated local addr = Ok answer
    /\ ((forall h, addr h = None) -> answer = None).
Proof.
  intros Hrange Hbook.
  destruct recipients as [| r rs].
  { exists None, None. split; [| split; [reflexivity | reflexivity]].
    unfold Beacons.generatePreambleAndBeacons.
    destruct (Z.ltb_spec t 0); [lia |].
    destruct (Z.gtb_spec t Beacons.ONE_DAY); [lia |]. reflexivity. }
  destruct (generate_for_keyPairs C L (r :: rs) ecdh ke t
              ltac:(discriminate) Hrange) as (beacons & Hgen & Hbeacons).
  destruct (generated_preamble_valid L ke t Hrange)
    as (Hvalid & HpubKe & Hexp).
  pose proof (generated_beacons_wellSized L ecdh ke
                (Beacons.expirationBufferOf t) _ beacons Hbeacons)
    as Hsized.
  assert (Hke : Beacons.computeSecret local
                  (BeaconSpec.pubKeOf
                     (Beacons.getPublicKey ke
                      ++ Beacons.expirationBufferOf t)) <> None).
  { rewrite HpubKe. apply Beacons.computeSecret_getPublicKey. }
  destruct (firstMatch_accepted local addr _
              (BeaconSpec.expirationOf
                 (Beacons.getPublicKey ke ++ Beacons.expirationBufferOf t))
              beacons Hke Hbook) as (answer & Hanswer).
  eexists. exists answer. split; [exact Hgen |]. split.
  { rewrite parseBeacons_whole_blocks by assumption. exact Hanswer. }
  intros Hnobody.
  rewrite firstMatch_unknown in Hanswer by assumption.
  injection Hanswer as <-. reflexivity.
Qed.

(** Carol, whose address book holds Alice's key, reads Alice's stream
    for Bob: the answer is a key id or null; with an empty address book
    it is null; and so is the answer to the null Alice generates for
    nobody. *)
Lemma parse_generated_never_throws_witness :
  (exists answer,
     Beacons.parseBeacons
       (Some (SmallCrypto.streamOf
          (Beacons.generatePreambleAndBeacons
             (Some [Beacons.getPublicKey SmallCrypto.bob])
             (Some SmallCrypto.alice) SmallCrypto.ephemeral 3600)))
       SmallCrypto.carol
       (SmallCrypto.addressBookOf
          (map Beacons.getPublicKey [SmallCrypto.alice]))
     = Ok answer)
  /\ Beacons.parseBeacons
       (Some (SmallCrypto.streamOf
          (Beacons.generatePreambleAndBeacons
             (Some [Beacons.getPublicKey SmallCrypto.bob])
             (Some SmallCrypto.alice) SmallCrypto.ephemeral 3600)))
       SmallCrypto.carol SmallCrypto.emptyAddressBook
     = Ok None
  /\ exists generated answer,
       Beacons.generatePreambleAndBeacons (Some [])
         (Some SmallCrypto.alice) SmallCrypto.ephemeral 3600 = Ok generated
       /\ Beacons.parseBeacons generated SmallCrypto.carol
            SmallCrypto.emptyAddressBook = Ok answer.
Proof.
  assert (Hrange : 0 <= 3600 <= Beacons.ONE_DAY)
    by (unfold Beacons.ONE_DAY; lia).
  split; [| split].
  - destruct (parse_generated_never_throws SmallCrypto.crypto small_laws
                [SmallCrypto.bob]
                SmallCrypto.alice SmallCrypto.ephemeral SmallCrypto.carol
                3600
                (SmallCrypto.addressBookOf
                   (map Beacons.getPublicKey [SmallCrypto.alice]))
                Hrange
                (addressBookOf_accepted SmallCrypto.carol
                   [SmallCrypto.alice]))
      as (generated & answer & Hgen & Hparse & _).
    exists answer. cbn [map] in Hgen. rewrite Hgen.
    destruct generated as [s |]; [exact Hparse |].
    vm_compute in Hgen. discriminate.
  - destruct (parse_generated_never_throws SmallCrypto.crypto small_laws
                [SmallCrypto.bob]
                SmallCrypto.alice SmallCrypto.ephemeral SmallCrypto.carol
                3600 SmallCrypto.emptyAddressBook Hrange
                ltac:(discriminate))
      as (generated & answer & Hgen & Hparse & Hnull).
    cbn [map] in Hgen. rewrite Hgen.
    rewrite (Hnull (fun h => eq_refl)) in Hparse.
    destruct generated as [s |]; [exact Hparse |].
    vm_compute in Hgen. discriminate.
  - destruct (parse_generated_never_throws SmallCrypto.crypto small_laws
                [] SmallCrypto.alice SmallCrypto.ephemeral SmallCrypto.carol
                3600 SmallCrypto.emptyAddressBook Hrange
                ltac:(discriminate))
      as (generated & answer & Hgen & Hparse & _).
    exists generated, answer. auto.
Defined.

(** X3.  A recipient whose key comes first in the list finds the sender,
    whatever key pairs follow: for lawful crypto, B reading the stream A
    generated for B.public followed by the public keys of other key
    pairs gets hashOf(A.public) when its address book maps that hash to
    A.public. *)
Theorem first_recipient_round_trip (C : Beacons.Crypto)
    (L : Beacons.CryptoLaws C) (A B ke : Beacons.ECDH) (t : Z)
    (others : list Beacons.ECDH) (addr : Beacons.addressBookCallback) :
  0 <= t <= Beacons.ONE_DAY ->
  addr (Beacons.createPublicKeyHash (Beacons.getPublicKey A))
  = Some (Beacons.getPublicKey A) ->
  exists s : Buffer.t,
    Beacons.generatePreambleAndBeacons
      (Some (Beacons.getPublicKey B :: map Beacons.getPublicKey others))
      (Some A) ke t = Ok (Some s)
    /\ Beacons.parseBeacons (Some s) B addr
       = Ok (Some (Beacons.createPublicKeyHash (Beacons.getPublicKey A))).
Proof.
  intros Hrange Hbook.
  destruct (generate_for_keyPairs C L (B :: others) A ke t
              ltac:(discriminate) Hrange) as (beacons & Hgen & Hbeacons).
  cbn [map] in Hgen, Hbeacons.
  inversion Hbeacons as [| k beacon ks rest Hbeacon Hrest]; subst.
  eexists. split; [exact Hgen |].
  unfold Buffer.concat. cbn [List.concat].
  rewrite app_assoc.
  apply parseBeacons_ignores_tail; assumption.
Qed.

Lemma first_recipient_round_trip_witness :
  Beacons.parseBeacons
    (Some (SmallCrypto.streamOf
       (Beacons.generatePreambleAndBeacons
          (Some [Beacons.getPublicKey SmallCrypto.bob;
                 Beacons.getPublicKey SmallCrypto.carol;
                 Beacons.getPublicKey SmallCrypto.dave])
          (Some SmallCrypto.alice) SmallCrypto.ephemeral 60)))
    SmallCrypto.bob
    (SmallCrypto.addressBookOf [Beacons.getPublicKey SmallCrypto.alice])
  = Ok (Some (Beacons.createPublicKeyHash
                (Beacons.getPublicKey SmallCrypto.alice))).
Proof.
  destruct (first_recipient_round_trip SmallCrypto.crypto small_laws
              SmallCrypto.alice SmallCrypto.bob SmallCrypto.ephemeral 60
              [SmallCrypto.carol; SmallCrypto.dave]
              (SmallCrypto.addressBookOf
                 [Beacons.getPublicKey SmallCrypto.alice])
              ltac:(unfold Beacons.ONE_DAY; lia)
              ltac:(vm_compute; reflexivity))
    as (s & Hgen & Hparse).
  cbn [map] in Hgen. rewrite Hgen. exact Hparse.
Defined.

(* ===================================================================== *)
(** * What parseBeacons answers and when it throws                        *)
(* ===================================================================== *)

(** X4.  A key id parseBeacons returns is never made up: it is the
    decryption of a complete 48-byte block of the stream, the address
    book maps it to a public key, and the last 16 bytes of the block are
    the HMAC expected for that key.  In particular nothing but null is
    returned with an address book that knows nobody. *)
Theorem parseBeacons_answer_sound (C : Beacons.Crypto)
    (local : Beacons.ECDH) (addr : Beacons.addressBookCallback)
    (s plain : Buffer.t) :
  Beacons.parseBeacons (Some s) local addr = Ok (Some plain) ->
  exists (j : nat) (pubKx : Buffer.t),
    (73 + 48 * j + 48 <= length s)%nat
    /\ BeaconSpec.decrypt local (Buffer.slice s 0 65) (Buffer.slice s 65 73)
         (Buffer.slice s (73 + 48 * j) (73 + 48 * j + 48)) = Some plain
    /\ addr plain = Some pubKx
    /\ BeaconSpec.expectedHmac local (Buffer.slice s 65 73) pubKx
       = Some (Buffer.slice
                 (Buffer.slice s (73 + 48 * j) (73 + 48 * j + 48)) 32 48).
Proof.
  intros Hparse. apply parseBeacons_Some in Hparse.
  destruct Hparse as (j & Hlen & Hjudge & _).
  apply judge_matched_iff in Hjudge.
  destruct Hjudge as (Hdec & pubKx & Hbook & Hmac).
  exists j, pubKx. auto.
Qed.

Lemma parseBeacons_answer_sound_witness :
  exists (j : nat) (pubKx : Buffer.t),
    SmallCrypto.addressBookOf [Beacons.getPublicKey SmallCrypto.alice]
      (Beacons.createPublicKeyHash (Beacons.getPublicKey SmallCrypto.alice))
    = Some pubKx
    /\ (73 + 48 * j + 48
        <= length (SmallCrypto.streamOf
             (Beacons.generatePreambleAndBeacons
                (Some [Beacons.getPublicKey SmallCrypto.bob])
                (Some SmallCrypto.alice) SmallCrypto.ephemeral 3600)))%nat.
Proof.
  destruct (parseBeacons_answer_sound SmallCrypto.crypto SmallCrypto.bob
              (SmallCrypto.addressBookOf
                 [Beacons.getPublicKey SmallCrypto.alice])
              (SmallCrypto.streamOf
                 (Beacons.generatePreambleAndBeacons
                    (Some [Beacons.getPublicKey SmallCrypto.bob])
                    (Some SmallCrypto.alice) SmallCrypto.ephemeral 3600))
              (Beacons.createPublicKeyHash (C := SmallCrypto.crypto)
                 (Beacons.getPublicKey SmallCrypto.alice))
              ltac:(vm_compute; reflexivity))
    as (j & pubKx & Hlen & _ & Hbook & _).
  exists j, pubKx. auto.
Defined.

(** X5.  Each preamble error of parseBeacons tells what was wrong: the
    public-key error is thrown exactly for streams shorter than 65 bytes,
    the 64-bit error exactly for 65 to 72 bytes, and the range error
    exactly for streams of at least 73 bytes whose expiration reads below
    0 or above ONE_DAY, whatever beacons follow. *)
Theorem parseBeacons_preamble_errors (C : Beacons.Crypto)
    (local : Beacons.ECDH) (addr : Beacons.addressBookCallback)
    (s : Buffer.t) :
  (Beacons.parseBeacons (Some s) local addr = Err PreamblePublicKey
   <-> (length s < 65)%nat)
  /\ (Beacons.parseBeacons (Some s) local addr = Err PreambleExpiration
      <-> (65 <= length s < 73)%nat)
  /\ (Beacons.parseBeacons (Some s) local addr = Err ExpirationOutOfRange
      <-> (73 <= length s)%nat
          /\ (Beacons.expirationNumber (Buffer.slice s 65 73) < 0
              \/ Beacons.expirationNumber (Buffer.slice s 65 73)
                 > Beacons.ONE_DAY)).
Proof.
  destruct (Nat.lt_ge_cases (length s) 65) as [H65 | H65].
  { rewrite parseBeacons_no_publicKey by exact H65.
    split; [tauto |].
    split; (split; [discriminate | lia]). }
  destruct (Nat.lt_ge_cases (length s) 73) as [H73 | H73].
  { rewrite parseBeacons_no_expiration by lia.
    split; [split; [discriminate | lia] |].
    split; [split; [lia | reflexivity] |].
    split; [discriminate | lia]. }
  rewrite parseBeacons_loop by exact H73.
  destruct (Z.ltb_spec (Beacons.expirationNumber (Buffer.slice s 65 73)) 0)
    as [Hneg | Hneg];
    destruct (Z.gtb_spec (Beacons.expirationNumber (Buffer.slice s 65 73))
                         Beacons.ONE_DAY) as [Hbig | Hbig]; cbn [orb].
  1-3: split; [split; [discriminate | lia] |];
       split; [split; [discriminate | lia] |];
       split; [intros _; split; [exact H73 | lia] | reflexivity].
  assert (Hloop : forall e,
    Beacons.beaconLoop s local addr (Buffer.slice s 0 65)
      (Buffer.slice s 65 73) (S (length s)) 73 = Err e ->
    e = LoopFuel \/ e = MalformedBeaconKeyId \/ e = InvalidPublicKey).
  { intros e He. apply beaconLoop_Err in He. tauto. }
  split; [split; [intros He; apply Hloop in He;
                  destruct He as [He | [He | He]]; discriminate | lia] |].
  split; [split; [intros He; apply Hloop in He;
                  destruct He as [He | [He | He]]; discriminate | lia] |].
  split; [intros He; apply Hloop in He;
          destruct He as [He | [He | He]]; discriminate | lia].
Qed.

(** X6.  When every complete block of a stream with a valid preamble is
    passed over (it fails to decrypt, is not recognized or has the wrong
    HMAC), the length alone decides: null for 73 + 48 n bytes, the
    malformed-beacon error otherwise. *)
Theorem parseBeacons_unmatched (C : Beacons.Crypto)
    (local : Beacons.ECDH) (addr : Beacons.addressBookCallback)
    (s : Buffer.t) :
  (73 <= length s)%nat ->
  0 <= Beacons.expirationNumber (Buffer.slice s 65 73) <= Beacons.ONE_DAY ->
  (forall j : nat, (73 + 48 * j + 48 <= length s)%nat ->
     BeaconSpec.isSkipped
       (BeaconSpec.judge local addr
          (Buffer.slice s 0 65) (Buffer.slice s 65 73)
          (Buffer.slice s (73 + 48 * j) (73 + 48 * j + 48))) = true) ->
  Beacons.parseBeacons (Some s) local addr
  = if ((length s - 73) mod 48 =? 0)%nat
    then Ok None else Err MalformedBeaconKeyId.
Proof.
  intros Hlen Hrange Hnone.
  rewrite parseBeacons_loop by exact Hlen.
  destruct (Z.ltb_spec (Beacons.expirationNumber (Buffer.slice s 65 73)) 0);
    [lia |].
  destruct (Z.gtb_spec (Beacons.expirationNumber (Buffer.slice s 65 73))
                       Beacons.ONE_DAY); [lia |].
  cbn [orb].
  rewrite beaconLoop_unmatched by (try exact Hnone; lia).
  destruct (Nat.leb_spec (length s) 73); [| reflexivity].
  replace (length s - 73)%nat with 0%nat by lia. reflexivity.
Qed.

(** Alice's stream for Bob read by Carol, who passes over the block, and
    the same stream with ten more bytes. *)
Lemma parseBeacons_unmatched_witness :
  let s :=
    SmallCrypto.streamOf
      (Beacons.generatePreambleAndBeacons
         (Some [Beacons.getPublicKey SmallCrypto.bob])
         (Some SmallCrypto.alice) SmallCrypto.ephemeral 3600) in
  let addr :=
    SmallCrypto.addressBookOf [Beacons.getPublicKey SmallCrypto.alice] in
  Beacons.parseBeacons (Some s) SmallCrypto.carol addr = Ok None
  /\ Beacons.parseBeacons (Some (s ++ repeat Byte.x00 10))
       SmallCrypto.carol addr
     = Err MalformedBeaconKeyId.
Proof.
  cbv zeta.
  set (s := SmallCrypto.streamOf _).
  set (addr := SmallCrypto.addressBookOf _).
  assert (Hlen : length s = 121%nat) by (vm_compute; reflexivity).
  split.
  - apply (parseBeacons_unmatched SmallCrypto.crypto SmallCrypto.carol
             addr s).
    + rewrite Hlen. lia.
    + vm_compute. split; discriminate.
    + intros j Hj. rewrite Hlen in Hj.
      assert (j = 0%nat) as -> by lia.
      vm_compute. reflexivity.
  - apply (parseBeacons_unmatched SmallCrypto.crypto SmallCrypto.carol
             addr (s ++ repeat Byte.x00 10)).
    + rewrite length_app, Hlen. cbn. lia.
    + vm_compute. split; discriminate.
    + intros j Hj. rewrite length_app, Hlen in Hj. cbn [repeat length] in Hj.
      assert (j = 0%nat) as -> by lia.
      vm_compute. reflexivity.
Defined.

(** X7.  The two range checks agree: generatePreambleAndBeacons throws
    its range error for an expiration exactly when parseBeacons throws
    'Expiration out of range' for a preamble that carries it. *)
Theorem expiration_checks_agree (C : Beacons.Crypto)
    (publicKeys : list Buffer.t) (ecdh ke local : Beacons.ECDH)
    (addr : Beacons.addressBookCallback) (pubKe : Buffer.t) (t : Z) :
  length pubKe = 65%nat ->
  - 2 ^ 63 <= t < 2 ^ 63 ->
  Beacons.generatePreambleAndBeacons (Some publicKeys) (Some ecdh) ke t
  = Err SecondsUntilExpirationRange
  <-> Beacons.parseBeacons (Some (pubKe ++ Beacons.expirationBufferOf t))
        local addr
      = Err ExpirationOutOfRange.
Proof.
  intros Hlen Ht.
  rewrite generate_range_error_iff.
  assert (Hslice : Buffer.slice (pubKe ++ Beacons.expirationBufferOf t) 65 73
                   = Beacons.expirationBufferOf t).
  { rewrite slice_app_r by exact Hlen.
    unfold Buffer.slice. rewrite drop_0. apply take_ge.
    rewrite expirationBufferOf_length. lia. }
  assert (Hlen73 : length (pubKe ++ Beacons.expirationBufferOf t) = 73%nat).
  { rewrite length_app, Hlen, expirationBufferOf_length. reflexivity. }
  rewrite parseBeacons_loop by lia.
  rewrite Hslice, expirationNumber_expirationBufferOf by exact Ht.
  unfold Beacons.ONE_DAY.
  destruct (Z.ltb_spec t 0); destruct (Z.gtb_spec t 86400000); cbn [orb].
  1-3: split; [reflexivity | lia].
  rewrite beaconLoop_done by lia.
  split; [lia | discriminate].
Qed.

(** One millisecond more than a day in the preamble, and minus one. *)
Lemma expiration_checks_agree_witness :
  Beacons.parseBeacons
    (Some (Beacons.getPublicKey SmallCrypto.ephemeral
           ++ Beacons.expirationBufferOf 86400001))
    SmallCrypto.bob SmallCrypto.emptyAddressBook
  = Err ExpirationOutOfRange
  /\ Beacons.parseBeacons
       (Some (Beacons.getPublicKey SmallCrypto.ephemeral
              ++ Beacons.expirationBufferOf (-1)))
       SmallCrypto.bob SmallCrypto.emptyAddressBook
     = Err ExpirationOutOfRange.
Proof.
  split.
  - apply (proj1 (expiration_checks_agree SmallCrypto.crypto
                    [Beacons.getPublicKey SmallCrypto.bob]
                    SmallCrypto.alice SmallCrypto.ephemeral SmallCrypto.bob
                    SmallCrypto.emptyAddressBook
                    (Beacons.getPublicKey SmallCrypto.ephemeral) 86400001
                    ltac:(vm_compute; reflexivity) ltac:(lia))).
    vm_compute. reflexivity.
  - apply (proj1 (expiration_checks_agree SmallCrypto.crypto
                    [Beacons.getPublicKey SmallCrypto.bob]
                    SmallCrypto.alice SmallCrypto.ephemeral SmallCrypto.bob
                    SmallCrypto.emptyAddressBook
                    (Beacons.getPublicKey SmallCrypto.ephemeral) (-1)
                    ltac:(vm_compute; reflexivity) ltac:(lia))).
    vm_compute. reflexivity.
Defined.

(** X8.  The errors of generatePreambleAndBeacons come in the order of
    the source: a null list of keys is reported whatever the other
    arguments are, then a null key pair; with both present the range
    error is thrown exactly outside 0 .. ONE_DAY, also for an empty
    list, which is answered with null only after the range check; and
    within the range the only error is the one of ecdh.computeSecret,
    thrown exactly when it rejects one of the keys for the local or for
    the ephemeral key pair. *)
Theorem generate_argument_errors (C : Beacons.Crypto)
    (publicKeys : list Buffer.t) (ecdh : option Beacons.ECDH)
    (local ke : Beacons.ECDH) (t : Z) (e : error) :
  Beacons.generatePreambleAndBeacons None ecdh ke t
  = Err PublicKeysToNotifyNull
  /\ Beacons.generatePreambleAndBeacons (Some publicKeys) None ke t
     = Err EcdhForLocalDeviceNull
  /\ (Beacons.generatePreambleAndBeacons (Some publicKeys) (Some local) ke t
      = Err e
      <-> (e = SecondsUntilExpirationRange
           /\ (t < 0 \/ t > Beacons.ONE_DAY))
          \/ (e = InvalidPublicKey
              /\ 0 <= t <= Beacons.ONE_DAY
              /\ exists pubKy : Buffer.t,
                   In pubKy publicKeys
                   /\ (Beacons.computeSecret local pubKy = None
                       \/ Beacons.computeSecret ke pubKy = None)))
  /\ (Beacons.generatePreambleAndBeacons (Some []) (Some local) ke t
      = Ok None
      <-> 0 <= t <= Beacons.ONE_DAY).
Proof.
  split; [reflexivity |]. split; [reflexivity |].
  unfold Beacons.generatePreambleAndBeacons.
  destruct (Z.ltb_spec t 0); destruct (Z.gtb_spec t Beacons.ONE_DAY);
    cbn [orb length Nat.eqb].
  1-3: split;
       [ split; [intros H'; injection H' as <-; left;
                 split; [reflexivity | lia]
                | intros [[-> _] | (_ & Hin & _)]; [reflexivity | lia]]
       | split; [discriminate | lia] ].
  split; [| split; [lia | reflexivity]].
  destruct publicKeys as [| k ks].
  { cbn [length Nat.eqb]. split; [discriminate |].
    intros [[_ Hout] | (_ & _ & x & [] & _)]. lia. }
  cbn [length Nat.eqb]. cbv zeta.
  destruct (Beacons.forEach _ _) as [beacons | e0] eqn:Hpushed.
  - split; [discriminate |].
    intros [[_ Hout] | (_ & _ & x & Hx & Hnone)]; [lia |].
    assert (Hbody :
      Beacons.beaconFor local ke (Beacons.expirationBufferOf t)
        (Beacons.createPublicKeyHash (Beacons.getPublicKey local)) x
      = Err InvalidPublicKey).
    { apply beaconFor_Err_iff. split; [reflexivity | exact Hnone]. }
    destruct (forEach_throws _ _ x InvalidPublicKey Hx Hbody) as (e' & He').
    congruence.
  - pose proof (forEach_Err_inv _ _ _ Hpushed) as (x & Hx & Hbody).
    apply beaconFor_Err_iff in Hbody. destruct Hbody as [-> Hnone].
    split.
    + intros H'. injection H' as <-. right.
      split; [reflexivity |]. split; [lia |]. exists x. auto.
    + intros [[_ Hout] | (-> & _)]; [lia | reflexivity].
Qed.

(* ===================================================================== *)
(** * More on the admission middleware                                    *)
(* ===================================================================== *)

(** X9.  The role the first middleware writes depends on the PSK identity
    of the connection alone: two requests on authorized connections with
    the same identity are passed on with the same role on their
    connections, whatever their methods, their paths and the roles left
    on the connections by earlier requests. *)
Theorem assignRole_depends_on_identity
    (getPskIdToSecret : option string -> option Manager.secret)
    (req1 req2 : Manager.request) :
  Manager.authorized (Manager.conn req1) = true ->
  Manager.authorized (Manager.conn req2) = true ->
  Manager.pskIdentity (Manager.conn req1)
  = Manager.pskIdentity (Manager.conn req2) ->
  exists r : Manager.role,
    Manager.assignRole getPskIdToSecret req1
    = Manager.next (Manager.withRole req1 r)
    /\ Manager.assignRole getPskIdToSecret req2
       = Manager.next (Manager.withRole req2 r)
    /\ Manager.pskRole (Manager.conn (Manager.withRole req1 r)) = Some r
    /\ Manager.pskRole (Manager.conn (Manager.withRole req2 r)) = Some r.
Proof.
  intros H1 H2 Hid. unfold Manager.assignRole. rewrite H1, H2, Hid.
  destruct (getPskIdToSecret _) as [[| key] |];
    eexists; (split; [reflexivity |]); (split; [reflexivity |]);
    split; reflexivity.
Qed.

(** A GET of the beacons on a fresh connection of "bob" and a PUT on a
    connection of "bob" that still carries the role 'beacon'. *)
Lemma assignRole_depends_on_identity_witness :
  exists r : Manager.role,
    Manager.assignRole Manager.sampleSecrets
      (Manager.requestOfBob Manager.GET ["NotificationBeacons"%string])
    = Manager.next
        (Manager.withRole
           (Manager.requestOfBob Manager.GET ["NotificationBeacons"%string])
           r)
    /\ Manager.assignRole Manager.sampleSecrets
         (Manager.withRole
            (Manager.requestOfBob Manager.PUT ["db"; "doc1"]%string)
            Manager.beacon)
       = Manager.next
           (Manager.withRole
              (Manager.withRole
                 (Manager.requestOfBob Manager.PUT ["db"; "doc1"]%string)
                 Manager.beacon)
              r)
    /\ Manager.pskRole
         (Manager.conn
            (Manager.withRole
               (Manager.withRole
                  (Manager.requestOfBob Manager.PUT ["db"; "doc1"]%string)
                  Manager.beacon)
               r))
       = Some r.
Proof.
  destruct (assignRole_depends_on_identity Manager.sampleSecrets
              (Manager.requestOfBob Manager.GET
                 ["NotificationBeacons"%string])
              (Manager.withRole
                 (Manager.requestOfBob Manager.PUT ["db"; "doc1"]%string)
                 Manager.beacon)
              eq_refl eq_refl eq_refl) as (r & H1 & H2 & _ & H4).
  exists r. split; [exact H1 |]. split; [exact H2 | exact H4].
Defined.



(** X11.  What ThaliManager._acl grants, whatever LOCAL_SEQ_POINT_PREFIX
    is: nothing to the role 'public'; to the role 'beacon' only GET on
    /NotificationBeacons; PUT and DELETE only to the role 'replication'
    and only on the two paths below /{:db}/_local/. *)
Theorem acl_grants (LOCAL_SEQ_POINT_PREFIX : string)
    (e : Manager.aclEntry) (ap : Manager.aclPath) (v : Manager.verb) :
  In e (Manager._acl LOCAL_SEQ_POINT_PREFIX) ->
  In ap (Manager.paths e) ->
  In v (Manager.verbs ap) ->
  Manager.aclRole e <> Manager.public
  /\ (Manager.aclRole e = Manager.beacon ->
      v = Manager.GET
      /\ Manager.pattern ap = [Manager.lit "NotificationBeacons"])
  /\ (v = Manager.PUT \/ v = Manager.DELETE ->
      Manager.aclRole e = Manager.replication
      /\ exists seg : Manager.segment,
           Manager.pattern ap
           = [Manager.db; Manager.lit "_local"; seg]).
Proof.
  unfold Manager._acl. intros He Hap Hv.
  cbn [In] in He. destruct He as [<- | [<- | []]];
    cbn [Manager.paths In] in Hap.
  - repeat (destruct Hap as [<- | Hap]); try contradiction;
      cbn [Manager.verbs In] in Hv;
      repeat (destruct Hv as [<- | Hv]); try contradiction;
      cbn [Manager.aclRole Manager.pattern];
      (split; [discriminate |]);
      (split; [discriminate |]);
      intros [Hw | Hw]; try discriminate;
      (split; [reflexivity | eexists; reflexivity]).
  - destruct Hap as [<- | []].
    cbn [Manager.verbs In] in Hv. destruct Hv as [<- | []].
    cbn [Manager.aclRole Manager.pattern].
    split; [discriminate |].
    split; [auto |].
    intros [Hw | Hw]; discriminate.
Qed.

Lemma acl_grants_witness :
  exists seg : Manager.segment,
    [Manager.db; Manager.lit "_local"; Manager.prefixedId "thali_"]
    = [Manager.db; Manager.lit "_local"; seg].
Proof.
  apply (proj2 (proj2 (acl_grants "thali_"
           (nth 0 (Manager._acl "thali_")
                {| Manager.aclRole := Manager.public; Manager.paths := [] |})
           {| Manager.pattern :=
                [Manager.db; Manager.lit "_local";
                 Manager.prefixedId "thali_"];
              Manager.verbs := [Manager.GET; Manager.PUT; Manager.DELETE] |}
           Manager.DELETE
           ltac:(cbn; auto)
           ltac:(cbn; auto 12)
           ltac:(cbn; auto)))).
  right. reflexivity.
Defined.

(* ===================================================================== *)
(** * The order of calls in start and stop                                *)
(* ===================================================================== *)

Ltac run_chain perform :=
  unfold Lifecycle.startLog, Lifecycle.startEnd, Lifecycle.stopLog,
    Lifecycle.stopEnd, Lifecycle.start, Lifecycle.stop, Lifecycle.statement,
    Lifecycle.returnChain, Lifecycle.thenReturn, Lifecycle.thenCall,
    Lifecycle.invoke;
  repeat match goal with
  | |- context [perform ?c ?w] =>
    let w' := fresh "w" in
    let r := fresh "r" in
    destruct (perform c w) as [w' r]; destruct r; cbn
  end.

(** X12.  ThaliManager.start calls the pull replication first and always;
    the promise it returns resolves exactly when ThaliMobile.start,
    startListeningForAdvertisements and
    startUpdateAdvertisingAndListening were called in this order and
    each resolved, and the send notification was then started without
    throwing.  The send notification is never started unless the three
    calls before it resolved, and the promises the pull replication and
    the send notification may return are not waited for. *)
Theorem start_order (W : Type)
    (perform : Lifecycle.call -> W -> W * Lifecycle.reply)
    (keys : option (list Buffer.t)) (w : W) :
  (exists r rest,
     Lifecycle.startLog W perform keys w
     = (Lifecycle.pullStart keys, r) :: rest)
  /\ (Lifecycle.startEnd W perform keys w = Lifecycle.resolved
      <-> exists r1 r5,
            r1 <> Lifecycle.throws /\ r5 <> Lifecycle.throws
            /\ Lifecycle.startLog W perform keys w
               = [ (Lifecycle.pullStart keys, r1);
                   (Lifecycle.mobileStart, Lifecycle.returnsResolved);
                   (Lifecycle.startListeningForAdvertisements,
                    Lifecycle.returnsResolved);
                   (Lifecycle.startUpdateAdvertisingAndListening,
                    Lifecycle.returnsResolved);
                   (Lifecycle.sendStart keys, r5) ])
  /\ (forall r5,
        In (Lifecycle.sendStart keys, r5)
           (Lifecycle.startLog W perform keys w) ->
        exists r1,
          Lifecycle.startLog W perform keys w
          = [ (Lifecycle.pullStart keys, r1);
              (Lifecycle.mobileStart, Lifecycle.returnsResolved);
              (Lifecycle.startListeningForAdvertisements,
               Lifecycle.returnsResolved);
              (Lifecycle.startUpdateAdvertisingAndListening,
               Lifecycle.returnsResolved);
              (Lifecycle.sendStart keys, r5) ]).
Proof.
  run_chain perform.
  all: split; [eexists; eexists; reflexivity |].
  all: split;
    [ split;
      [ first [ discriminate
              | intros _; eexists; eexists;
                split; [| split; [| reflexivity]]; discriminate ]
      | intros (r1 & r5 & H1 & H5 & Hlog); try discriminate;
        try reflexivity;
        injection Hlog as <- <-; congruence ]
    | intros r5 Hin; cbn [In] in Hin;
      repeat (destruct Hin as [Hin | Hin]; try discriminate);
      try contradiction;
      injection Hin as <-; eexists; reflexivity ].
Qed.

(** X13.  ThaliManager.stop stops the send notification first and always;
    its promise resolves exactly when stopAdvertisingAndListening,
    stopListeningForAdvertisements and ThaliMobile.stop were called in
    this order and each resolved, and the pull replication was then
    stopped without throwing.  The pull replication is not stopped when
    one of the three calls before it throws or rejects. *)
Theorem stop_order (W : Type)
    (perform : Lifecycle.call -> W -> W * Lifecycle.reply) (w : W) :
  (exists r rest,
     Lifecycle.stopLog W perform w = (Lifecycle.sendStop, r) :: rest)
  /\ (Lifecycle.stopEnd W perform w = Lifecycle.resolved
      <-> exists r1 r5,
            r1 <> Lifecycle.throws /\ r5 <> Lifecycle.throws
            /\ Lifecycle.stopLog W perform w
               = [ (Lifecycle.sendStop, r1);
                   (Lifecycle.stopAdvertisingAndListening,
                    Lifecycle.returnsResolved);
                   (Lifecycle.stopListeningForAdvertisements,
                    Lifecycle.returnsResolved);
                   (Lifecycle.mobileStop, Lifecycle.returnsResolved);
                   (Lifecycle.pullStop, r5) ])
  /\ (forall r5,
        In (Lifecycle.pullStop, r5) (Lifecycle.stopLog W perform w) ->
        exists r1,
          Lifecycle.stopLog W perform w
          = [ (Lifecycle.sendStop, r1);
              (Lifecycle.stopAdvertisingAndListening,
               Lifecycle.returnsResolved);
              (Lifecycle.stopListeningForAdvertisements,
               Lifecycle.returnsResolved);
              (Lifecycle.mobileStop, Lifecycle.returnsResolved);
              (Lifecycle.pullStop, r5) ]).
Proof.
  run_chain perform.
  all: split; [eexists; eexists; reflexivity |].
  all: split;
    [ split;
      [ first [ discriminate
              | intros _; eexists; eexists;
                split; [| split; [| reflexivity]]; discriminate ]
      | intros (r1 & r5 & H1 & H5 & Hlog); try discriminate;
        try reflexivity;
        injection Hlog as <- <-; congruence ]
    | intros r5 Hin; cbn [In] in Hin;
      repeat (destruct Hin as [Hin | Hin]; try discriminate);
      try contradiction;
      injection Hin as <-; eexists; reflexivity ].
Qed.

(** The chain of calls of a resolved start or stop. *)
Lemma startLog_resolved (W : Type)
    (perform : Lifecycle.call -> W -> W * Lifecycle.reply)
    (keys : option (list Buffer.t)) (w : W) :
  Lifecycle.startEnd W perform keys w = Lifecycle.resolved ->
  map fst (Lifecycle.startLog W perform keys w)
  = [ Lifecycle.pullStart keys; Lifecycle.mobileStart;
      Lifecycle.startListeningForAdvertisements;
      Lifecycle.startUpdateAdvertisingAndListening;
      Lifecycle.sendStart keys ].
Proof.
  run_chain perform; intros H; try discriminate; reflexivity.
Qed.

Lemma stopLog_resolved (W : Type)
    (perform : Lifecycle.call -> W -> W * Lifecycle.reply) (w : W) :
  Lifecycle.stopEnd W perform w = Lifecycle.resolved ->
  map fst (Lifecycle.stopLog W perform w)
  = [ Lifecycle.sendStop; Lifecycle.stopAdvertisingAndListening;
      Lifecycle.stopListeningForAdvertisements; Lifecycle.mobileStop;
      Lifecycle.pullStop ].
Proof.
  run_chain perform; intros H; try discriminate; reflexivity.
Qed.

(** X14.  Stop mirrors start: when both resolve, whatever the
    collaborators did in between, the calls stop made are the
    counterparts of the calls start made, in the reverse order. *)
Theorem stop_mirrors_start (W : Type)
    (perform : Lifecycle.call -> W -> W * Lifecycle.reply)
    (keys : option (list Buffer.t)) (w w' : W) :
  Lifecycle.startEnd W perform keys w = Lifecycle.resolved ->
  Lifecycle.stopEnd W perform w' = Lifecycle.resolved ->
  map fst (Lifecycle.stopLog W perform w')
  = rev (map Lifecycle.counterpart
           (map fst (Lifecycle.startLog W perform keys w))).
Proof.
  intros Hstart Hstop.
  rewrite (startLog_resolved W perform keys w Hstart).
  rewrite (stopLog_resolved W perform w' Hstop).
  reflexivity.
Qed.

(** Start and stop with collaborators whose replication objects return
    rejected promises: both resolve all the same, and mirror each
    other. *)
Lemma stop_mirrors_start_witness :
  Lifecycle.startEnd unit Lifecycle.replicationRejects (Some []) tt
  = Lifecycle.resolved
  /\ map fst (Lifecycle.stopLog unit Lifecycle.replicationRejects tt)
     = rev (map Lifecycle.counterpart
              (map fst (Lifecycle.startLog unit Lifecycle.replicationRejects
                          (Some []) tt))).
Proof.
  split; [reflexivity |].
  apply (stop_mirrors_start unit Lifecycle.replicationRejects
           (Some []) tt tt); reflexivity.
Defined.

(* ===================================================================== *)
(** * The peer filters of the test-suite                                  *)
(* ===================================================================== *)

(** X15.  The filter of the test on duplicate observations lets every
    peer through as soon as the wifi peer and the native peer have
    different ids, while the filter of the networkChanged tests lets
    exactly the two test peers through. *)
Theorem isTestPeerOfDuplicates_filters_nothing
    (wifiPeerId nativePeerId peerIdentifier : string) :
  (MobileTests.isTestPeerOfDuplicates wifiPeerId nativePeerId
     peerIdentifier = false
   <-> peerIdentifier = wifiPeerId /\ peerIdentifier = nativePeerId)
  /\ (wifiPeerId <> nativePeerId ->
      MobileTests.isTestPeerOfDuplicates wifiPeerId nativePeerId
        peerIdentifier = true)
  /\ (MobileTests.isTestPeerOfNetworkChanged wifiPeerId nativePeerId
        peerIdentifier = true
      <-> peerIdentifier = nativePeerId \/ peerIdentifier = wifiPeerId).
Proof.
  unfold MobileTests.isTestPeerOfDuplicates,
    MobileTests.isTestPeerOfNetworkChanged.
  destruct (String.eqb_spec peerIdentifier wifiPeerId) as [Hw | Hw];
    destruct (String.eqb_spec peerIdentifier nativePeerId) as [Hn | Hn];
    cbn [negb orb].
  - split; [tauto |]. split; [intros Hne; congruence | tauto].
  - split; [split; [discriminate | tauto] |]. split; [reflexivity | tauto].
  - split; [split; [discriminate | tauto] |]. split; [reflexivity | tauto].
  - split; [split; [discriminate | tauto] |].
    split; [reflexivity |].
    split; [discriminate | tauto].
Qed.

Lemma isTestPeerOfDuplicates_filters_nothing_witness :
  MobileTests.isTestPeerOfDuplicates "wifi-1" "native-1" "stranger" = true.
Proof.
  apply (proj1 (proj2 (isTestPeerOfDuplicates_filters_nothing
                         "wifi-1" "native-1" "stranger"))).
  discriminate.
Defined.
